(** * fantom-api-graphql: resolvers, validator, flow roll-up and schedulers

    A shallow embedding of the Go sources of the API server core and the
    properties its specification states about them.  The first part holds
    the definitions, one module per Go package; the second part holds the
    theorems. *)

From Stdlib Require Import ZArith Lia List String Ascii Bool QArith.
From Stdlib.Strings Require Import Byte.
From stdpp Require Import gmap strings list pretty sorting.

Import ListNotations.

(* ===================================================================== *)
(** * Part I: definitions                                                 *)
(* ===================================================================== *)

(** ** Go machine integers *)

Module GoInt.
Local Open Scope Z_scope.

(** Conversion of an integer to [int32]: two's complement wrap-around. *)
Definition int32 (z : Z) : Z := (z + 2 ^ 31) mod 2 ^ 32 - 2 ^ 31.

(** Conversion of an integer to [uint32]. *)
Definition uint32 (z : Z) : Z := z mod 2 ^ 32.

(** Unary minus on [int32]; [- math.MinInt32] wraps to itself. *)
Definition neg32 (z : Z) : Z := int32 (- z).

Definition is_int32 (z : Z) : Prop := - 2 ^ 31 <= z < 2 ^ 31.
Definition is_uint32 (z : Z) : Prop := 0 <= z < 2 ^ 32.

Definition maxInt32 : Z := 2 ^ 31 - 1.
End GoInt.

(** ** Package resolvers: list sizes *)

Module Paging.
Import GoInt.
Local Open Scope Z_scope.

(** [listMaxEdgesPerRequest uint32 = 100] *)
Definition listMaxEdgesPerRequest : Z := 100.

(** [func listLimitCount(count int32, limit uint32) int32] *)
Definition listLimitCount (count limit : Z) : Z :=
  if count =? 0 then int32 limit
  else if ((0 <? count) && (uint32 count <? limit))
          || ((count <? 0) && (neg32 (int32 limit) <? count))
  then count
  else if count <? 0 then neg32 (int32 limit)
  else int32 limit.
End Paging.

(** ** Package resolvers: subscription identifiers *)

Module Uuid.
(** A Go [error] is carried as its message. *)
Definition error : Type := string.

Definition EOF : error := "EOF".
Definition ErrUnexpectedEOF : error := "unexpected EOF".

(** The random source as [io.ReadFull] sees it: the bytes it delivers
    before it stops, and the error it stops with (end of input when
    there is none). *)
Record Reader : Type := mkReader {
  avail : list byte;
  fault : option error
}.

(** [io.ReadFull(r, buf)] on a zeroed buffer of [len] bytes: the number
    of bytes read, the buffer afterwards and the error. *)
Definition ReadFull (r : Reader) (len : nat) : nat * list byte * option error :=
  if (len <=? length (avail r))%nat
  then (len, firstn len (avail r), None)
  else (length (avail r),
        avail r ++ repeat x00 (len - length (avail r)),
        Some (match fault r with
              | Some e => e
              | None => match avail r with [] => EOF | _ => ErrUnexpectedEOF end
              end)).

Definition byte_of_N (n : N) : byte :=
  match Byte.of_N (n mod 256) with Some b => b | None => x00 end.

(** [x &^ y] and [x | y] on bytes. *)
Definition and_not (x y : byte) : byte :=
  byte_of_N (N.ldiff (Byte.to_N x) (Byte.to_N y)).
Definition or (x y : byte) : byte :=
  byte_of_N (N.lor (Byte.to_N x) (Byte.to_N y)).

(** [u[i]] and [u[i] = v] on the 16 byte container. *)
Definition at_ (u : list byte) (i : nat) : byte := nth i u x00.
Fixpoint set_ (u : list byte) (i : nat) (v : byte) : list byte :=
  match u, i with
  | [], _ => []
  | _ :: r, O => v :: r
  | b :: r, S j => b :: set_ r j v
  end.

(** [u[lo:hi]] *)
Definition slice (u : list byte) (lo hi : nat) : list byte :=
  firstn (hi - lo) (skipn lo u).

Definition ldigits : list ascii := list_ascii_of_string "0123456789abcdef".
Definition hexdigit (n : N) : ascii := nth (N.to_nat n) ldigits "0"%char.
Definition hexhi (b : byte) : ascii := hexdigit (N.shiftr (Byte.to_N b) 4).
Definition hexlo (b : byte) : ascii := hexdigit (N.land (Byte.to_N b) 15).

(** The verb [%x] of [fmt] on a byte slice: two lower-case hexadecimal
    digits per byte. *)
Fixpoint fmtx (bs : list byte) : string :=
  match bs with
  | [] => EmptyString
  | b :: r => String (hexhi b) (String (hexlo b) (fmtx r))
  end.

(** The two assignments of [uuid]: variant bits, then version 4. *)
Definition stamp (u : list byte) : list byte :=
  let u := set_ u 8 (or (and_not (at_ u 8) xc0) x80) in
  set_ u 6 (or (and_not (at_ u 6) xf0) x40).

Definition format (u : list byte) : string :=
  (fmtx (slice u 0 4) ++ "-" ++ fmtx (slice u 4 6) ++ "-"
   ++ fmtx (slice u 6 8) ++ "-" ++ fmtx (slice u 8 10) ++ "-"
   ++ fmtx (skipn 10 u))%string.

(** [func uuid() (string, error)], with the random source as argument. *)
Definition uuid (rnd : Reader) : string * option error :=
  let '(n, u, err) := ReadFull rnd 16 in
  if negb (n =? length u)%nat || (match err with Some _ => true | None => false end)
  then (EmptyString, err)
  else (format (stamp u), None).

(** The textual shape of a version 4 UUID, read position by position:
    36 characters, hyphens at 8, 13, 18 and 23, lower-case hexadecimal
    digits elsewhere, the digit 4 at position 14 and one of 8, 9, a, b
    (top bits 10) at position 19. *)
Definition is_hex_digit (c : ascii) : bool :=
  let n := N_of_ascii c in
  ((48 <=? n) && (n <=? 57) || (97 <=? n) && (n <=? 102))%N.

Definition is_variant_digit (c : ascii) : bool :=
  let n := N_of_ascii c in
  ((n =? 56) || (n =? 57) || (n =? 97) || (n =? 98))%N.

Definition is_hyphen_pos (i : nat) : bool :=
  ((i =? 8) || (i =? 13) || (i =? 18) || (i =? 23))%nat.

Fixpoint shape_from (i : nat) (s : string) : bool :=
  match s with
  | EmptyString => (i =? 36)%nat
  | String c r =>
      (if is_hyphen_pos i then Ascii.eqb c "-" else is_hex_digit c)
      && (if (i =? 14)%nat then Ascii.eqb c "4" else true)
      && (if (i =? 19)%nat then is_variant_digit c else true)
      && shape_from (S i) r
  end.

Definition uuid_v4_shape (s : string) : bool := shape_from 0 s.

(** Two digits determine the byte they print. *)
Definition unhex (hi lo : ascii) : byte :=
  let v c := (let n := N_of_ascii c in if n <? 58 then n - 48 else n - 87)%N in
  byte_of_N (16 * v hi + v lo).

Arguments hexhi : simpl never.
Arguments hexlo : simpl never.
Arguments or : simpl never.
Arguments and_not : simpl never.
End Uuid.

(** ** Package strings: case-insensitive comparison *)

Module Strings.
Local Open Scope N_scope.

(** The byte loop of [strings.EqualFold]: equal bytes continue, an upper
    case letter matches its lower case, anything else differs, and the
    lengths must agree.  Bytes from [utf8.RuneSelf] on are compared as
    they are: the strings compared here are the ASCII hexadecimal forms
    of addresses. *)
Definition fold_match (sr tr : N) : bool :=
  if tr =? sr then true
  else
    let lo := N.min sr tr in
    let hi := N.max sr tr in
    (65 <=? lo) && (lo <=? 90) && (hi =? lo + 97 - 65).

Fixpoint EqualFold (s t : string) : bool :=
  match s, t with
  | EmptyString, EmptyString => true
  | String a s', String b t' =>
      fold_match (N_of_ascii a) (N_of_ascii b) && EqualFold s' t'
  | _, _ => false
  end.

(** ASCII lower case of a byte. *)
Definition lower (n : N) : N :=
  if (65 <=? n) && (n <=? 90) then n + 32 else n.

Fixpoint lower_string (s : string) : list N :=
  match s with
  | EmptyString => []
  | String a r => lower (N_of_ascii a) :: lower_string r
  end.
End Strings.

(** ** Package validator *)

Module Validator.
Definition error : Type := string.

(** Modelled from the spec: [types.Contract] is declared outside these
    sources.  The fields are those that validation and peer
    synchronisation read, and the [validated] flag of the data model. *)
Record Contract : Type := mkContract {
  Address : list byte;
  TransactionHash : list byte;
  Name : string;
  SourceCode : string;
  Version : string;
  SupportContact : string;
  License : string;
  OptimizeRuns : Z;
  IsOptimized : bool;
  Validated : bool
}.

(** Modelled from the spec: [types.Transaction] is declared outside these
    sources; the fields are those that validation reads. *)
Record Transaction : Type := mkTransaction {
  Hash : list byte;
  ContractAddress : option (list byte);
  InputData : list byte
}.

(** One compiled contract ([compiler.Contract] of go-ethereum): its name
    and byte code. *)
Record Artefact : Type := mkArtefact {
  art_name : string;
  art_code : list byte
}.

(** What [ValidateContract] calls and does not define itself: the
    repository's transaction lookup, the textual forms of addresses and
    hashes, and the validator's compile, match and persist steps. *)
Record Collaborators : Type := mkCollaborators {
  repo_Transaction : list byte -> Transaction + error;
  AddressString : list byte -> string;
  HashString : list byte -> string;
  Compile : string -> list Artefact + error;
  MatchArtefact : list Artefact -> list byte -> option Artefact;
  MarkValidated : Contract -> Artefact -> Contract * option error
}.

(** What an execution does, in order. *)
Inductive Event : Type :=
| EvLookup (hash : list byte)
| EvLogError (msg : string)
| EvCompile (source : string)
| EvMatch (input : list byte)
| EvPersist (art : Artefact).

(** The contract behind the pointer [sc] and the events so far. *)
Record World : Type := mkWorld {
  w_contract : Contract;
  w_events : list Event
}.

Definition M (A : Type) : Type := World -> A * World.

Definition ret {A} (a : A) : M A := fun w => (a, w).
Definition bind {A B} (m : M A) (k : A -> M B) : M B :=
  fun w => let '(a, w') := m w in k a w'.
Definition emit (e : Event) : M unit :=
  fun w => (tt, mkWorld (w_contract w) (w_events w ++ [e])).
Definition read_sc : M Contract := fun w => (w_contract w, w).
Definition write_sc (c : Contract) : M unit :=
  fun w => (tt, mkWorld c (w_events w)).

Notation "x <- m ;; k" := (bind m (fun x => k))
  (at level 100, m at next level, right associativity).
Notation "m ;;; k" := (bind m (fun _ => k))
  (at level 100, right associativity).

Section WithCollaborators.
Variable cv : Collaborators.

Definition Errorf (msg : string) : M unit := emit (EvLogError msg).

Definition call_Transaction (h : list byte) : M (Transaction + error) :=
  emit (EvLookup h) ;;; ret (repo_Transaction cv h).

Definition call_Compile (src : string) : M (list Artefact + error) :=
  emit (EvCompile src) ;;; ret (Compile cv src).

Definition call_MatchArtefact (arts : list Artefact) (input : list byte)
  : M (option Artefact) :=
  emit (EvMatch input) ;;; ret (MatchArtefact cv arts input).

Definition call_MarkValidated (art : Artefact) : M (option error) :=
  sc <- read_sc ;;
  emit (EvPersist art) ;;;
  let '(sc', err) := MarkValidated cv sc art in
  write_sc sc' ;;; ret err.

(** [tx.ContractAddress == nil || !strings.EqualFold(...)] *)
Definition wrong_deployment (tx : Transaction) (sc : Contract) : bool :=
  match ContractAddress tx with
  | None => true
  | Some a =>
      negb (Strings.EqualFold (AddressString cv a)
                              (AddressString cv (Address sc)))
  end.

(** [func (cv *ContractValidator) ValidateContract(sc *types.Contract) error] *)
Definition ValidateContract : M (option error) :=
  sc <- read_sc ;;
  r <- call_Transaction (TransactionHash sc) ;;
  match r with
  | inr err =>
      Errorf ("contract deployment not found; " ++ err) ;;;
      ret (Some err)
  | inl tx =>
      if wrong_deployment tx sc then
        Errorf ("invalid contract deployment tx " ++ HashString cv (Hash tx)
                ++ " for " ++ AddressString cv (Address sc)) ;;;
        ret (Some "invalid contract details"%string)
      else
        c <- call_Compile (SourceCode sc) ;;
        match c with
        | inr err =>
            Errorf ("compilation failed; " ++ err) ;;;
            ret (Some err)
        | inl artefacts =>
            m <- call_MatchArtefact artefacts (InputData tx) ;;
            match m with
            | None =>
                ret (Some "deployed contract does not match the source code provided"%string)
            | Some art => call_MarkValidated art
            end
        end
  end.

(** Running on a contract, from an empty event list. *)
Definition run_ValidateContract (sc : Contract) : option error * World :=
  ValidateContract (mkWorld sc []).
End WithCollaborators.

Definition is_pipeline_step (e : Event) : bool :=
  match e with
  | EvCompile _ | EvMatch _ | EvPersist _ => true
  | EvLookup _ | EvLogError _ => false
  end.

Definition no_pipeline_step (evs : list Event) : bool :=
  forallb (fun e => negb (is_pipeline_step e)) evs.
End Validator.

(** ** Package time *)

Module Time.
Local Open Scope Z_scope.

(** A [time.Time] in UTC: nanoseconds since the Unix epoch.
    A [time.Duration]: nanoseconds, an [int64]. *)
Definition Nanosecond : Z := 1.
Definition Second : Z := 1000000000.
Definition Minute : Z := 60 * Second.
Definition Hour : Z := 60 * Minute.
Definition Day : Z := 24 * Hour.

Definition maxDuration : Z := 2 ^ 63 - 1.
Definition minDuration : Z := - 2 ^ 63.

(** [t.Before(u)] *)
Definition Before (t u : Z) : bool := t <? u.

(** [t.Add(d)] *)
Definition Add (t d : Z) : Z := t + d.

(** [t.Sub(u)]: the difference, or the largest (smallest) duration when
    it does not fit. *)
Definition Sub (t u : Z) : Z :=
  if maxDuration <? t - u then maxDuration
  else if t - u <? minDuration then minDuration
  else t - u.

(** [t.Clock()] and [t.Nanosecond()] of a UTC time. *)
Definition second_of_day (t : Z) : Z := (t / Second) mod 86400.
Definition Clock (t : Z) : Z * Z * Z :=
  let sod := second_of_day t in
  (sod / 3600, (sod mod 3600) / 60, sod mod 60).
Definition Nanosecond_of (t : Z) : Z := t mod Second.

(** The UTC midnight that starts the day of [t]. *)
Definition midnight (t : Z) : Z := (t / Day) * Day.

(** [d.Seconds()]: whole seconds plus the fraction, as a rational. *)
Definition Seconds (d : Z) : Q :=
  (inject_Z (Z.quot d Second) + inject_Z (Z.rem d Second) / inject_Z Second)%Q.
End Time.

(** ** Package db: transaction flow *)

Module Db.
Local Open Scope Z_scope.

Definition error : Type := string.

(** A document of the [transactions] collection, as the roll-up reads
    it: the time stamp (a BSON date, milliseconds since the epoch), the
    amount and the gas used. *)
Record TrxDoc : Type := mkTrxDoc {
  stamp : Z;
  amo : Z;
  gas_use : Z
}.

(** A document of the [trx_volume] collection.  The key [_id] is the
    UTC date of the day as [%Y-%m-%d]; it is carried as the number of
    the day since the epoch, which that text denotes. *)
Record VolumeDoc : Type := mkVolumeDoc {
  vd_id : Z;
  vd_stamp : Z;
  vd_volume : Z;
  vd_gas : Z;
  vd_value : Z
}.

Record Store : Type := mkStore {
  transactions : list TrxDoc;
  trx_volume : gmap Z VolumeDoc
}.

Definition msPerDay : Z := 86400000.

(** A [time.Time] as the BSON date the driver sends. *)
Definition bson_date (t : Z) : Z := t / 1000000.

(** [$dateToString] with [%Y-%m-%d] on a date: its day. *)
Definition day_of (ms : Z) : Z := ms / msPerDay.

(** [$toDate] on the text of a day: its midnight. *)
Definition toDate (day : Z) : Z := day * msPerDay.

(** Stage [$match]: [stamp >= from]. *)
Definition stage_match (from : Z) (docs : list TrxDoc) : list TrxDoc :=
  filter (fun d => bson_date from <= stamp d) docs.

(** The accumulators of one group: [$sum] of [$amo], of [$gas_use], of 1. *)
Record Group : Type := mkGroup {
  g_volume : Z;
  g_gas : Z;
  g_value : Z
}.

Definition accumulate (d : TrxDoc) (g : option Group) : option Group :=
  match g with
  | None => Some (mkGroup (amo d) (gas_use d) 1)
  | Some g => Some (mkGroup (g_volume g + amo d) (g_gas g + gas_use d)
                            (g_value g + 1))
  end.

Definition step_group (g : option Group) (d : TrxDoc) : option Group :=
  accumulate d g.

(** Stage [$group] by day. *)
Fixpoint stage_group (docs : list TrxDoc) (acc : gmap Z Group) : gmap Z Group :=
  match docs with
  | [] => acc
  | d :: rest =>
      stage_group rest (partial_alter (accumulate d) (day_of (stamp d)) acc)
  end.

(** Stage [$project]: the stamp from the key, and the three sums. *)
Definition stage_project (kg : Z * Group) : VolumeDoc :=
  mkVolumeDoc (fst kg) (toDate (fst kg))
              (g_volume (snd kg)) (g_gas (snd kg)) (g_value (snd kg)).

(** Stage [$merge] into [trx_volume] on [_id], for one document:
    [whenMatched: replace], [whenNotMatched: insert]. *)
Definition merge_doc (col : gmap Z VolumeDoc) (d : VolumeDoc) : gmap Z VolumeDoc :=
  match col !! vd_id d with
  | Some _ => <[vd_id d := d]> col
  | None => <[vd_id d := d]> col
  end.

Definition stage_merge (col : gmap Z VolumeDoc) (docs : list VolumeDoc)
  : gmap Z VolumeDoc :=
  foldl merge_doc col docs.

(** The documents the pipeline hands to [$merge]. *)
Definition rollup (from : Z) (docs : list TrxDoc) : list VolumeDoc :=
  stage_project <$> map_to_list (stage_group (stage_match from docs) ∅).

Inductive LogLine : Type :=
| Noticef (msg : string)
| Errorf (msg : string).

(** [func (db *MongoDbBridge) TrxDailyFlowUpdate(from time.Time) error].
    [aggregate_err] is the error of [col.Aggregate], when the driver
    fails, and [close_err] that of closing the cursor. *)
Definition TrxDailyFlowUpdate (aggregate_err close_err : option error)
           (from : Z) (st : Store) : Store * list LogLine * option error :=
  let log := [Noticef "updating trx flow"] in
  match aggregate_err with
  | Some err =>
      (st, log ++ [Errorf ("can not update trx flow; " ++ err)], Some err)
  | None =>
      let st' := mkStore (transactions st)
                         (stage_merge (trx_volume st)
                                      (rollup from (transactions st))) in
      match close_err with
      | Some err =>
          (st', log ++ [Errorf ("can not close aggregate cursor; " ++ err)], None)
      | None => (st', log, None)
      end
  end.

(** The store after a run. *)
Definition after (r : Store * list LogLine * option error) : Store :=
  fst (fst r).

Definition sumZ (f : TrxDoc -> Z) (docs : list TrxDoc) : Z :=
  foldr (fun d a => f d + a) 0 docs.

(** [trxDailyFlowListFilter]: the bounds that are given, on [stamp]. *)
Definition trxDailyFlowListFilter (from to : option Z) (d : TrxDoc) : bool :=
  match from with Some f => bson_date f <=? stamp d | None => true end
  && match to with Some t => stamp d <=? bson_date t | None => true end.

(** The cursor of the gas aggregation: [$match] on the range and
    [$group] of everything into one row with the sum of [$gas_use]; no
    row at all when nothing matches. *)
Definition gas_rows (from to : Z) (docs : list TrxDoc) : list Z :=
  match List.filter (trxDailyFlowListFilter (Some from) (Some to)) docs with
  | [] => []
  | l => [sumZ gas_use l]
  end.

(** [func (db *MongoDbBridge) trxGasSpeed(cr, from, to) (float64, error)].
    The quotient is taken in the rationals, which the [float64] of the
    source approximates; [decode_err] is the error of [cr.Decode]. *)
Definition trxGasSpeed (decode_err : option error) (cr : list Z) (from to : Z)
  : Q * option error :=
  match cr with
  | [] => (0%Q, Some "gas speed aggregation failure"%string)
  | volume :: _ =>
      match decode_err with
      | Some err => (0%Q, Some err)
      | None =>
          ((inject_Z volume / Time.Seconds (Time.Sub to from))%Q, None)
      end
  end.

(** [func (db *MongoDbBridge) TrxGasSpeed(from, to *time.Time) (float64, error)] *)
Definition TrxGasSpeed (aggregate_err decode_err : option error)
           (st : Store) (from to : Z) : Q * option error :=
  if negb (Time.Before from to) then
    (0%Q, Some "invalid time range requested"%string)
  else
    match aggregate_err with
    | Some err => (0%Q, Some err)
    | None => trxGasSpeed decode_err (gas_rows from to (transactions st)) from to
    end.

(** The last document of a list with a given key. *)
Fixpoint last_with (k : Z) (docs : list VolumeDoc) : option VolumeDoc :=
  match docs with
  | [] => None
  | d :: rest =>
      match last_with k rest with
      | Some r => Some r
      | None => if decide (vd_id d = k) then Some d else None
      end
  end.

(** The documents of one day that a roll-up from [from] reads. *)
Definition day_docs (from day : Z) (docs : list TrxDoc) : list TrxDoc :=
  filter (fun d => day_of (stamp d) = day) (stage_match from docs).

End Db.

(** ** Package repository: the transaction flow updater *)

Module Repository.
Local Open Scope Z_scope.

Definition error : Type := string.

(** [trxFlowUpdaterPeriod], [trxCountUpdaterPeriod], [trxFlowUpdateRange] *)
Definition trxFlowUpdaterPeriod : Z := 7 * Time.Minute.
Definition trxCountUpdaterPeriod : Z := 30 * Time.Minute.
Definition trxFlowUpdateRange : Z := -2 * 24 * Time.Hour.

Inductive Level : Type := Debug | Info | Notice | Error | Critical.

(** What the service does, in order. *)
Inductive Action : Type :=
| ActLog (lvl : Level) (msg : string)
| ActNewTicker (period : Z)
| ActGoUpdateTrxCountEstimate
| ActTransactionsCount
| ActUpdateTrxCountEstimate (val : Z)
| ActTrxDailyFlowUpdate (from : Z)
| ActTickerStop (period : Z)
| ActWgDone.

(** The repository behind the service (its store, and the cached count
    estimate that [UpdateTrxCountEstimate], declared outside these
    sources, publishes), the tickers of the service, the counter of the
    shared wait group and the actions so far. *)
Record World : Type := mkWorld {
  store : Db.Store;
  estimate : Z;
  flowTicker : bool;
  trxCountTicker : bool;
  wg : Z;
  actions : list Action
}.

Definition act (a : Action) (w : World) : World :=
  mkWorld (store w) (estimate w) (flowTicker w) (trxCountTicker w) (wg w)
          (actions w ++ [a]).

Definition logf (lvl : Level) (msg : string) : World -> World :=
  act (ActLog lvl msg).

(** [func (tfu *txFlowUpdater) updateTrxCountEstimate()], with what
    [repo.TransactionsCount()] returns. *)
Definition updateTrxCountEstimate (count : Z + error) (w : World) : World :=
  let w := act ActTransactionsCount w in
  match count with
  | inr err => logf Error ("can not update trx count estimation; " ++ err) w
  | inl val =>
      let w := act (ActUpdateTrxCountEstimate val) w in
      mkWorld (store w) val (flowTicker w) (trxCountTicker w) (wg w) (actions w)
  end.

(** [from] of [proxy.TrxFlowUpdate]: the clock of [now] and its
    nanoseconds taken off, then the update range added. *)
Definition flow_from (now : Z) : Z :=
  let '(h, m, s) := Time.Clock now in
  Time.Add
    (Time.Add
       (Time.Add now (- (h * 3600 + m * 60 + s) * Time.Second))
       (- Time.Nanosecond_of now * Time.Nanosecond))
    trxFlowUpdateRange.

(** [func (p *proxy) TrxFlowUpdate()], with the reading of
    [time.Now().UTC()] and the errors of the database driver. *)
Definition TrxFlowUpdate (now : Z) (aggregate_err close_err : option error)
           (w : World) : World :=
  let from := flow_from now in
  let w := act (ActTrxDailyFlowUpdate from) w in
  let '(st, _, err) :=
    Db.TrxDailyFlowUpdate aggregate_err close_err from (store w) in
  let w := mkWorld st (estimate w) (flowTicker w) (trxCountTicker w) (wg w)
                   (actions w) in
  let w := match err with
           | Some e => logf Critical ("can not update trx flow; " ++ e) w
           | None => w
           end in
  logf Debug "trx flow updated" w.

(** The case that a [select] of [schedule] takes, with what the
    environment answers while the case runs. *)
Inductive Select : Type :=
| SigStop
| FlowTick (now : Z) (aggregate_err close_err : option error)
| CountTick (count : Z + error).

Inductive Status : Type :=
| Waiting     (* blocked in [select]: no case is ready *)
| Returned.   (* the function has returned *)

(** The [for { select { ... } }] of [schedule].  A goroutine started
    with [go] is run where it is started. *)
Fixpoint schedule_loop (cases : list Select) (w : World) : Status * World :=
  match cases with
  | [] => (Waiting, w)
  | SigStop :: _ => (Returned, w)
  | FlowTick now a c :: rest =>
      schedule_loop rest
        (TrxFlowUpdate now a c (logf Info "calling for trx flow update" w))
  | CountTick count :: rest =>
      schedule_loop rest
        (updateTrxCountEstimate count
           (act ActGoUpdateTrxCountEstimate
              (logf Info "calling for trx count update" w)))
  end.

(** The deferred function of [schedule]. *)
Definition schedule_deferred (w : World) : World :=
  let w := act (ActTickerStop trxFlowUpdaterPeriod) w in
  let w := act (ActTickerStop trxCountUpdaterPeriod) w in
  let w := logf Notice "trx flow updater is closed" w in
  let w := act ActWgDone w in
  mkWorld (store w) (estimate w) false false (wg w + -1) (actions w).

(** [func (tfu *txFlowUpdater) schedule()]: what runs before the loop,
    then the loop and the deferred function; [first] is what
    [repo.TransactionsCount()] returns to the initial update. *)
Definition schedule_start (first : Z + error) (w : World) : World :=
  let w := logf Notice "trx flow updater is running" w in
  let w := act (ActNewTicker trxFlowUpdaterPeriod) w in
  let w := act (ActNewTicker trxCountUpdaterPeriod) w in
  let w := mkWorld (store w) (estimate w) true true (wg w) (actions w) in
  updateTrxCountEstimate first (act ActGoUpdateTrxCountEstimate w).

Definition schedule (first : Z + error) (cases : list Select) (w : World)
  : Status * World :=
  match schedule_loop cases (schedule_start first w) with
  | (Returned, w') => (Returned, schedule_deferred w')
  | (Waiting, w') => (Waiting, w')
  end.

(** [func (tfu *txFlowUpdater) run()]: one more entry in the wait
    group, then [schedule]. *)
Definition wg_Add (n : Z) (w : World) : World :=
  mkWorld (store w) (estimate w) (flowTicker w) (trxCountTicker w)
          (wg w + n) (actions w).

Definition run (first : Z + error) (cases : list Select) (w : World)
  : Status * World :=
  schedule first cases (wg_Add 1 w).

Definition is_stop (c : Select) : bool :=
  match c with SigStop => true | _ => false end.

Definition is_count_tick (c : Select) : bool :=
  match c with CountTick _ => true | _ => false end.

Definition is_flow_tick (c : Select) : bool :=
  match c with FlowTick _ _ _ => true | _ => false end.

Definition no_stop (cases : list Select) : bool :=
  forallb (fun c => negb (is_stop c)) cases.

(** How often an action occurs. *)
Definition is_go_update (a : Action) : bool :=
  match a with ActGoUpdateTrxCountEstimate => true | _ => false end.
Definition is_flow_update (a : Action) : bool :=
  match a with ActTrxDailyFlowUpdate _ => true | _ => false end.
Definition is_wg_done (a : Action) : bool :=
  match a with ActWgDone => true | _ => false end.
Definition is_ticker_stop (a : Action) : bool :=
  match a with ActTickerStop _ => true | _ => false end.

Definition occurrences (p : Action -> bool) (w : World) : nat :=
  length (List.filter p (actions w)).

Definition initial (st : Db.Store) (est : Z) : World :=
  mkWorld st est false false 0 [].
End Repository.

(** ** Package resolvers: the broadcast loop *)

Module Broadcast.
Local Open Scope Z_scope.

Section WithHandlers.
(** The subscriptions and events, and the four methods that [run]
    calls and that are defined with the subscriptions: each works on
    the registry of its own kind. *)
Variables SubBlock SubTrx Block Trx : Type.
Variable addBlockSubscriber :
  SubBlock -> gmap string SubBlock -> gmap string SubBlock.
Variable addTrxSubscriber :
  SubTrx -> gmap string SubTrx -> gmap string SubTrx.
Variable dispatchOnBlock :
  Block -> gmap string SubBlock -> gmap string SubBlock.
Variable dispatchOnTransaction :
  Trx -> gmap string SubTrx -> gmap string SubTrx.

(** The case that a [select] of [run] takes. *)
Inductive Select : Type :=
| SigStop
| UnsubscribeOnBlock (id : string)
| UnsubscribeOnTrx (id : string)
| SubscribeOnBlock (sub : SubBlock)
| SubscribeOnTrx (sub : SubTrx)
| OnBlockEvent (evt : Block)
| OnTrxEvent (evt : Trx).

Inductive Action : Type :=
| ActNotice (msg : string)
| ActHandled (c : Select)
| ActWgDone.

(** The part of [rootResolver] that [run] works on. *)
Record Resolver : Type := mkResolver {
  blockSubscribers : gmap string SubBlock;
  trxSubscribers : gmap string SubTrx;
  wg : Z;
  actions : list Action
}.

Definition act (a : Action) (rs : Resolver) : Resolver :=
  mkResolver (blockSubscribers rs) (trxSubscribers rs) (wg rs)
             (actions rs ++ [a]).

Definition on_blocks (f : gmap string SubBlock -> gmap string SubBlock)
           (rs : Resolver) : Resolver :=
  mkResolver (f (blockSubscribers rs)) (trxSubscribers rs) (wg rs)
             (actions rs).

Definition on_trxs (f : gmap string SubTrx -> gmap string SubTrx)
           (rs : Resolver) : Resolver :=
  mkResolver (blockSubscribers rs) (f (trxSubscribers rs)) (wg rs)
             (actions rs).

(** One case of the [select], the stop signal apart. *)
Definition handle (c : Select) (rs : Resolver) : Resolver :=
  let rs := act (ActHandled c) rs in
  match c with
  | SigStop => rs
  | UnsubscribeOnBlock id => on_blocks (delete id) rs
  | UnsubscribeOnTrx id => on_trxs (delete id) rs
  | SubscribeOnBlock sub => on_blocks (addBlockSubscriber sub) rs
  | SubscribeOnTrx sub => on_trxs (addTrxSubscriber sub) rs
  | OnBlockEvent evt => on_blocks (dispatchOnBlock evt) rs
  | OnTrxEvent evt => on_trxs (dispatchOnTransaction evt) rs
  end.

(** The [for { select { ... } }] of [run]: [false] when it is blocked
    with no case ready, [true] when it has returned. *)
Fixpoint run_loop (cases : list Select) (rs : Resolver) : bool * Resolver :=
  match cases with
  | [] => (false, rs)
  | SigStop :: _ => (true, rs)
  | c :: rest => run_loop rest (handle c rs)
  end.

(** [func (rs *rootResolver) run()], with its deferred function. *)
Definition wg_Add (n : Z) (rs : Resolver) : Resolver :=
  mkResolver (blockSubscribers rs) (trxSubscribers rs) (wg rs + n)
             (actions rs).

Definition run_deferred (rs : Resolver) : Resolver :=
  let rs := act (ActNotice "GraphQL resolver done") rs in
  wg_Add (-1) (act ActWgDone rs).

Definition run (cases : list Select) (rs : Resolver) : bool * Resolver :=
  let rs := act (ActNotice "GraphQL resolver started") rs in
  match run_loop cases rs with
  | (true, rs') => (true, run_deferred rs')
  | (false, rs') => (false, rs')
  end.

(** [rs.wg.Add(1); go rs.run()] of [New]. *)
Definition start (cases : list Select) (rs : Resolver) : bool * Resolver :=
  run cases (wg_Add 1 rs).

Definition is_stop (c : Select) : bool :=
  match c with SigStop => true | _ => false end.

Definition no_stop (cases : list Select) : bool :=
  forallb (fun c => negb (is_stop c)) cases.

Definition is_wg_done (a : Action) : bool :=
  match a with ActWgDone => true | _ => false end.

Definition is_handled (a : Action) : bool :=
  match a with ActHandled _ => true | _ => false end.

Definition occurrences (p : Action -> bool) (rs : Resolver) : nat :=
  length (List.filter p (actions rs)).
End WithHandlers.

Arguments SigStop {SubBlock SubTrx Block Trx}.
Arguments UnsubscribeOnBlock {SubBlock SubTrx Block Trx} id.
Arguments UnsubscribeOnTrx {SubBlock SubTrx Block Trx} id.
Arguments SubscribeOnBlock {SubBlock SubTrx Block Trx} sub.
Arguments SubscribeOnTrx {SubBlock SubTrx Block Trx} sub.
Arguments OnBlockEvent {SubBlock SubTrx Block Trx} evt.
Arguments OnTrxEvent {SubBlock SubTrx Block Trx} evt.
Arguments ActNotice {SubBlock SubTrx Block Trx} msg.
Arguments ActHandled {SubBlock SubTrx Block Trx} c.
Arguments ActWgDone {SubBlock SubTrx Block Trx}.
Arguments mkResolver {SubBlock SubTrx Block Trx}.
Arguments blockSubscribers {SubBlock SubTrx Block Trx} r.
Arguments trxSubscribers {SubBlock SubTrx Block Trx} r.
Arguments wg {SubBlock SubTrx Block Trx} r.
Arguments actions {SubBlock SubTrx Block Trx} r.
Arguments is_stop {SubBlock SubTrx Block Trx} c.
Arguments no_stop {SubBlock SubTrx Block Trx} cases.
Arguments is_wg_done {SubBlock SubTrx Block Trx} a.
Arguments is_handled {SubBlock SubTrx Block Trx} a.
Arguments occurrences {SubBlock SubTrx Block Trx} p rs.
Arguments act {SubBlock SubTrx Block Trx} a rs.
Arguments wg_Add {SubBlock SubTrx Block Trx} n rs.
Arguments run_deferred {SubBlock SubTrx Block Trx} rs.
End Broadcast.

(** ** Package resolvers: contract synchronisation with the peers *)

Module Sync.
Import Validator.
Local Open Scope Z_scope.

(** [contractSyncMutationQuery], [contractSyncCallTimeout] *)
Definition contractSyncMutationQuery : string :=
  "mutation($sc:ContractValidationInput!) { validateContract(contract: $sc) { validated } }".
Definition contractSyncCallTimeout : Z := 60 * Time.Second.

(** Modelled from the spec: [ContractValidationInput] is declared outside
    these sources; the wire contract names its fields.  A pointer field
    is [None] when nil. *)
Record ContractValidationInput : Type := mkInput {
  in_Address : list byte;
  in_Name : option string;
  in_SourceCode : string;
  in_OptimizeRuns : Z;
  in_Optimized : bool;
  in_Version : option string;
  in_SupportContact : option string;
  in_License : option string
}.

Definition nonempty (s : string) : option string :=
  if (0 <? String.length s)%nat then Some s else None.

(** [func contractSyncInput(con *types.Contract) ContractValidationInput] *)
Definition contractSyncInput (con : Contract) : ContractValidationInput :=
  mkInput (Address con) (Some (Name con)) (SourceCode con)
          (OptimizeRuns con) (IsOptimized con)
          (nonempty (Version con)) (nonempty (SupportContact con))
          (nonempty (License con)).

(** The payload structure with its JSON field names. *)
Record Payload : Type := mkPayload {
  query : string;
  variables : list (string * ContractValidationInput)
}.

Definition payload_of (con : Contract) : Payload :=
  mkPayload contractSyncMutationQuery [("sc"%string, contractSyncInput con)].

(** An HTTP request as [http.NewRequestWithContext] makes it from a
    [*bytes.Buffer]: the content length is the number of unread bytes
    of the buffer at that time, and the body is read from that very
    buffer when the request is sent (no body at all when the length
    is 0). *)
Record Request : Type := mkRequest {
  req_method : string;
  req_url : string;
  req_header : gmap string string;
  req_ContentLength : nat;
  req_timeout : Z
}.

Definition Header_Set (k v : string) (r : Request) : Request :=
  mkRequest (req_method r) (req_url r) (<[k := v]> (req_header r))
            (req_ContentLength r) (req_timeout r).

(** What went over the wire for one request, and how it ended: the
    status code of the response or the error of the transport. *)
Record Exchange : Type := mkExchange {
  ex_request : Request;
  ex_body : list byte;
  ex_result : Z + error
}.

Inductive LogLine : Type :=
| Debugf (msg : string)
| Noticef (msg : string)
| Errorf (msg : string).

(** Where the goroutine of one peer stands. *)
Inductive Pc : Type :=
| Started                 (* before [http.NewRequestWithContext] *)
| Prepared (req : Request) (* before [client.Do] *)
| Finished.               (* the deferred function has run *)

(** The buffer that all goroutines share through the pointer
    [&payload], the goroutines, the counter of the wait group, the log
    and the exchanges so far. *)
Record State : Type := mkState {
  payload : list byte;
  routines : list (string * Pc);
  wg : Z;
  log : list LogLine;
  wire : list Exchange
}.

Inductive Status : Type :=
| Waiting     (* blocked in [wg.Wait()] *)
| Returned.

Section WithNetwork.
(** [json.NewEncoder(&buf).Encode], whether [net/http] accepts a
    peer's URL, and what a peer answers to a body. *)
Variable Encode : Payload -> list byte + error.
Variable url_ok : string -> bool.
Variable respond : string -> list byte -> Z + error.

(** [func constructMutationPayload(con *types.Contract) (bytes.Buffer, error)] *)
Definition constructMutationPayload (con : Contract)
  : list byte * option error :=
  match Encode (payload_of con) with
  | inr err => ([], Some err)
  | inl buf => (buf, None)
  end.

Definition set_pc (i : nat) (peer : string) (pc : Pc) (st : State)
  : list (string * Pc) :=
  <[i := (peer, pc)]> (routines st).

(** The deferred function of [syncContractToPeer]. *)
Definition deferred (i : nat) (peer : string) (st : State) : State :=
  mkState (payload st) (set_pc i peer Finished st) (wg st - 1)
          (log st ++ [Noticef ("syncing " ++ peer ++ " finished")])
          (wire st).

Definition logf (l : LogLine) (st : State) : State :=
  mkState (payload st) (routines st) (wg st) (log st ++ [l]) (wire st).

(** [client.Do(req)]: the body is read off the shared buffer; a body
    shorter than the announced length is an error of the transport. *)
Definition Do (req : Request) (st : State) : (Z + error) * State :=
  let body := firstn (req_ContentLength req) (payload st) in
  let result :=
    if (length body <? req_ContentLength req)%nat
    then inr "http: ContentLength with Body length"%string
    else respond (req_url req) body in
  (result,
   mkState (skipn (req_ContentLength req) (payload st)) (routines st)
           (wg st) (log st) (wire st ++ [mkExchange req body result])).

(** [func syncContractToPeer(payload, peer, origin, wg, lg)], one
    atomic step of the goroutine [i]: up to the request being
    prepared, then the exchange and the rest. *)
Definition step (origin : string) (i : nat) (st : State) : State :=
  match routines st !! i with
  | Some (peer, Started) =>
      let st := logf (Debugf ("syncing contract validation to " ++ peer
                              ++ " from " ++ origin)) st in
      if url_ok peer then
        let req := mkRequest "POST" peer ∅ (length (payload st))
                             contractSyncCallTimeout in
        let req := Header_Set "Content-Type" "application/json" req in
        let req := Header_Set "Origin" origin req in
        mkState (payload st) (set_pc i peer (Prepared req) st) (wg st)
                (log st) (wire st)
      else
        deferred i peer
          (logf (Errorf ("can not create new POST request for " ++ peer
                         ++ " peer")) st)
  | Some (peer, Prepared req) =>
      let '(result, st) := Do req st in
      match result with
      | inr err =>
          deferred i peer
            (logf (Errorf ("can not finalize syncing request for " ++ peer
                           ++ " peer; " ++ err)) st)
      | inl code =>
          if code =? 200 then
            deferred i peer
              (logf (Debugf ("syncing request to " ++ peer
                             ++ " finished with success")) st)
          else
            deferred i peer
              (logf (Errorf ("syncing request to " ++ peer
                             ++ " has been rejected with code "
                             ++ pretty code)) st)
      end
  | Some (_, Finished) | None => st
  end.

(** The goroutines run in the order of [sched], one step a turn. *)
Definition run_routines (origin : string) (sched : list nat) (st : State)
  : State :=
  foldl (fun st i => step origin i st) st sched.

(** [func (rs *rootResolver) syncContract(con types.Contract)], with
    the configured peers and address, under a schedule of the
    goroutines. *)
Definition syncContract (peers : list string) (origin : string)
           (con : Contract) (sched : list nat) : Status * State :=
  if (length peers <=? 0)%nat then
    (Returned,
     mkState [] [] 0 [Debugf "no peers for contract validation syncing"] [])
  else
    match constructMutationPayload con with
    | (_, Some err) =>
        (Returned,
         mkState [] [] 0
                 [Errorf ("can not construct the sync payload; " ++ err)] [])
    | (buf, None) =>
        let st := mkState buf ((fun p => (p, Started)) <$> peers)
                          (Z.of_nat (length peers)) [] [] in
        let st := logf (Debugf "waiting for validation syncing to finish")
                       (run_routines origin sched st) in
        if wg st =? 0
        then (Returned, logf (Debugf "validation syncing finished") st)
        else (Waiting, st)
    end.
End WithNetwork.

Definition is_finished (r : string * Pc) : bool :=
  match snd r with Finished => true | _ => false end.

Definition all_finished (st : State) : bool := forallb is_finished (routines st).

Definition unfinished (st : State) : nat :=
  length (List.filter (fun r => negb (is_finished r)) (routines st)).

(** How far a goroutine is. *)
Definition rank (pc : Pc) : nat :=
  match pc with Started => 0 | Prepared _ => 1 | Finished => 2 end.

Definition rank_at (i : nat) (st : State) : nat :=
  match routines st !! i with Some (_, pc) => rank pc | None => 2 end.

(** The request that [syncContractToPeer] is to issue to a peer. *)
Definition well_formed (peer origin : string) (req : Request) : Prop :=
  req_method req = "POST"%string
  /\ req_url req = peer
  /\ req_header req !! "Content-Type"%string = Some "application/json"%string
  /\ req_header req !! "Origin"%string = Some origin
  /\ req_timeout req = 60 * Time.Second.

(** A prepared request and an exchange are as [syncContractToPeer]
    makes them. *)
Definition prepared_ok (origin : string) (r : string * Pc) : Prop :=
  match snd r with
  | Prepared req => well_formed (fst r) origin req
  | _ => True
  end.

Definition exchange_ok (origin : string) (peers : list string) (e : Exchange)
  : Prop :=
  req_url (ex_request e) ∈ peers
  /\ well_formed (req_url (ex_request e)) origin (ex_request e).

Definition requests_ok (origin : string) (st : State) : Prop :=
  Forall (prepared_ok origin) (routines st)
  /\ Forall (exchange_ok origin (routines st).*1) (wire st).

(** The bodies sent so far and what is left in the buffer. *)
Definition sent_and_left (st : State) : list byte :=
  concat (ex_body <$> wire st) ++ payload st.

(** A state without its log, and a step on it. *)
Definition view (st : State)
  : list byte * list (string * Pc) * Z * list Exchange :=
  (payload st, routines st, wg st, wire st).

Definition new_request (origin peer : string) (n : nat) : Request :=
  Header_Set "Origin" origin
    (Header_Set "Content-Type" "application/json"
       (mkRequest "POST" peer ∅ n contractSyncCallTimeout)).

Definition exchange (respond : string -> list byte -> Z + error)
           (req : Request) (buf : list byte) : Exchange :=
  let body := firstn (req_ContentLength req) buf in
  mkExchange req body
    (if (length body <? req_ContentLength req)%nat
     then inr "http: ContentLength with Body length"%string
     else respond (req_url req) body).

Definition step_view (url_ok : string -> bool)
           (respond : string -> list byte -> Z + error) (origin : string)
           (i : nat) (v : list byte * list (string * Pc) * Z * list Exchange)
  : list byte * list (string * Pc) * Z * list Exchange :=
  let '(buf, rs, n, w) := v in
  match rs !! i with
  | Some (peer, Started) =>
      if url_ok peer
      then (buf,
            <[i := (peer, Prepared (new_request origin peer (length buf)))]> rs,
            n, w)
      else (buf, <[i := (peer, Finished)]> rs, n - 1, w)
  | Some (peer, Prepared req) =>
      (skipn (req_ContentLength req) buf, <[i := (peer, Finished)]> rs, n - 1,
       w ++ [exchange respond req buf])
  | Some (_, Finished) | None => v
  end.
End Sync.

(** ** Request coalescing of contract validation *)

Module SingleFlight.
Section WithResult.
(** What a validation returns to its caller. *)
Variable R : Type.

(** Modelled from the spec: the call of the resolver's validation
    through the single-flight group [rootResolver.cg] is not among the
    sources, only the field is.  The group is keyed by the contract
    address; an execution in flight has the caller that runs it and the
    callers that wait for it. *)
Record Flight : Type := mkFlight {
  executor : nat;
  joined : list nat
}.

(** A caller asks for the validation of a key, or the execution in
    flight for a key completes with a result. *)
Inductive Event : Type :=
| Call (caller : nat) (key : string)
| Complete (key : string) (result : R).

Inductive Output : Type :=
| Executes (caller : nat) (key : string)
| Receives (caller : nat) (key : string) (result : R).

(** Modelled from the spec: the validation call through the group is not
    among the sources.  A call with a key that has an execution in
    flight blocks until that execution completes, a call with a free key
    executes; on completion the executor and all that wait receive the
    result and the key is free again. *)
Definition step (e : Event) (g : gmap string Flight)
  : gmap string Flight * list Output :=
  match e with
  | Call c k =>
      match g !! k with
      | Some f => (<[k := mkFlight (executor f) (joined f ++ [c])]> g, [])
      | None => (<[k := mkFlight c []]> g, [Executes c k])
      end
  | Complete k r =>
      match g !! k with
      | Some f =>
          (delete k g,
           Receives (executor f) k r
             :: ((fun c => Receives c k r) <$> joined f))
      | None => (g, [])
      end
  end.

Fixpoint run (evs : list Event) (g : gmap string Flight)
  : gmap string Flight * list Output :=
  match evs with
  | [] => (g, [])
  | e :: rest =>
      let '(g', out) := step e g in
      let '(g'', outs) := run rest g' in
      (g'', out ++ outs)
  end.

Definition completes (k : string) (e : Event) : bool :=
  match e with Complete k' _ => String.eqb k' k | Call _ _ => false end.

Definition executes (k : string) (o : Output) : bool :=
  match o with Executes _ k' => String.eqb k' k | Receives _ _ _ => false end.

(** The callers that ask for a key, in order. *)
Fixpoint callers_of (k : string) (evs : list Event) : list nat :=
  match evs with
  | [] => []
  | Call c k' :: rest =>
      if String.eqb k' k then c :: callers_of k rest else callers_of k rest
  | Complete _ _ :: rest => callers_of k rest
  end.
End WithResult.

Arguments Call {R} caller key.
Arguments Complete {R} key result.
Arguments Executes {R} caller key.
Arguments Receives {R} caller key result.
Arguments step {R} e g.
Arguments run {R} evs g.
Arguments completes {R} k e.
Arguments executes {R} k o.
Arguments callers_of {R} k evs.
End SingleFlight.

(** ** Sample values *)

Module Samples.
Definition hex_address (a : list byte) : string := ("0x" ++ Uuid.fmtx a)%string.

Definition sample_contract : Validator.Contract :=
  Validator.mkContract [xab; xcd] [x01] "" "contract C {}" "" "" "" 200 false false.

(** A repository without the transaction. *)
Definition cv_missing : Validator.Collaborators :=
  Validator.mkCollaborators (fun _ => inr "not found"%string) hex_address hex_address
    (fun _ => inl []) (fun _ _ => None) (fun c _ => (c, None)).

(** A repository whose transaction deployed another contract. *)
Definition cv_other : Validator.Collaborators :=
  Validator.mkCollaborators
    (fun h => inl (Validator.mkTransaction h (Some [xab; xce]) [x60]))
    hex_address hex_address
    (fun _ => inl []) (fun _ _ => None) (fun c _ => (c, None)).

(** A resolver whose subscriptions carry no data and whose handlers
    leave the registries as they are. *)
Definition sample_unsubscribe : Broadcast.Select unit unit unit unit :=
  Broadcast.UnsubscribeOnBlock "7f1c".

Definition sample_resolver : Broadcast.Resolver unit unit unit unit :=
  Broadcast.mkResolver {[ "7f1c"%string := tt ]} ∅ 0 [].

Definition sample_start :=
  Broadcast.start unit unit unit unit
    (fun _ m => m) (fun _ m => m) (fun _ m => m) (fun _ m => m).

(** A rendering of the payload as JSON, for texts that need no
    escaping. *)
Definition dq : string := String (ascii_of_nat 34) EmptyString.
Definition quoted (s : string) : string := (dq ++ s ++ dq)%string.
Definition field (k v : string) : string := (quoted k ++ ":" ++ v)%string.
Definition opt_text (o : option string) : string :=
  match o with Some s => quoted s | None => "null"%string end.

Definition render_input (i : Sync.ContractValidationInput) : string :=
  ("{" ++ field "address" (quoted ("0x" ++ Uuid.fmtx (Sync.in_Address i)))
   ++ "," ++ field "name" (opt_text (Sync.in_Name i))
   ++ "," ++ field "sourceCode" (quoted (Sync.in_SourceCode i))
   ++ "," ++ field "optimizeRuns" (pretty (Sync.in_OptimizeRuns i))
   ++ "," ++ field "optimized" (if Sync.in_Optimized i then "true" else "false")
   ++ "," ++ field "version" (opt_text (Sync.in_Version i))
   ++ "," ++ field "supportContact" (opt_text (Sync.in_SupportContact i))
   ++ "," ++ field "license" (opt_text (Sync.in_License i))
   ++ "}")%string.

Definition render_variables (vs : list (string * Sync.ContractValidationInput))
  : string :=
  String.concat ","
    (List.map (fun kv => field (fst kv) (render_input (snd kv))) vs).

Definition sample_Encode (p : Sync.Payload) : list byte + string :=
  inl (list_byte_of_string
         ("{" ++ field "query" (quoted (Sync.query p))
          ++ "," ++ field "variables" ("{" ++ render_variables (Sync.variables p) ++ "}")
          ++ "}" ++ String (ascii_of_nat 10) EmptyString)%string).

(** Two peers: the first accepts a request with a body, and anything
    else is a bad request. *)
Definition sample_peers : list string :=
  ["https://api-a.example/api"%string; "https://api-b.example/api"%string].

Definition sample_respond (url : string) (body : list byte) : Z + string :=
  match body with
  | [] => inl 400%Z
  | _ => inl 200%Z
  end.

Definition sample_origin : string := "https://api-c.example".

Definition sample_validated : Validator.Contract :=
  Validator.mkContract [xab; xcd] [x01] "C" "contract C {}" "0.5.17" ""
    "MIT" 200 true true.

Definition sample_sync (sched : list nat) : Sync.Status * Sync.State :=
  Sync.syncContract sample_Encode (fun _ => true) sample_respond
    sample_peers sample_origin sample_validated sched.

Definition sample_body : list byte :=
  match sample_Encode (Sync.payload_of sample_validated) with
  | inl b => b
  | inr _ => []
  end.
End Samples.

(** ** Package db: reading the transaction flow *)

Module DbQueries.
Import Db.
Local Open Scope Z_scope.

(** The documents that [TrxRecentTrxSpeed] counts: those with a time
    stamp (the field [fiTransactionTimeStamp], named outside these
    sources) at or after [from]. *)
Definition recent_count (from : Z) (docs : list TrxDoc) : Z :=
  Z.of_nat (length (List.filter (fun d => bson_date from <=? stamp d) docs)).

(** [func (db *MongoDbBridge) TrxRecentTrxSpeed(sec int32) (float64, error)],
    with the reading of [time.Now().UTC()] and the error of
    [col.CountDocuments]; the quotient is taken in the rationals. *)
Definition TrxRecentTrxSpeed (count_err : option error) (now : Z) (st : Store)
           (sec : Z) : Q * option error :=
  let sec := if sec <? 60 then 60 else sec in
  let from := Time.Add now (- sec * Time.Second) in
  match count_err with
  | Some err => (0%Q, Some err)
  | None =>
      let total := recent_count from (transactions st) in
      if total =? 0 then (0%Q, None)
      else ((inject_Z total / inject_Z sec)%Q, None)
  end.

(** [trxDailyFlowListFilter] on a document of [trx_volume]: the bounds
    that are given, on its [stamp]. *)
Definition volume_filter (from to : option Z) (d : VolumeDoc) : bool :=
  match from with Some f => bson_date f <=? vd_stamp d | None => true end
  && match to with Some t => vd_stamp d <=? bson_date t | None => true end.

(** The order of [SetSort(bson.D{{"_id", 1}})], on the keys. *)
Definition by_key (a b : Z * VolumeDoc) : Prop := fst a <= fst b.

#[global] Instance by_key_dec a b : Decision (by_key a b).
Proof. unfold by_key. apply _. Defined.

(** [col.Find] with the filter, the sort on [_id] and [SetLimit(365)]. *)
Definition find_volumes (from to : option Z) (col : gmap Z VolumeDoc)
  : list (Z * VolumeDoc) :=
  firstn 365
    (merge_sort by_key
       (List.filter (fun kd => volume_filter from to (snd kd)) (map_to_list col))).

(** [func loadTrxDailyFlowList(ld *mongo.Cursor)]: the rows in turn, or
    the first error of [ld.Decode]; [decode] tells the rows that do not
    decode. *)
Fixpoint loadTrxDailyFlowList (decode : VolumeDoc -> option error)
         (rows : list VolumeDoc) (acc : list VolumeDoc)
  : option (list VolumeDoc) * option error :=
  match rows with
  | [] => (Some acc, None)
  | row :: rest =>
      match decode row with
      | Some err => (None, Some err)
      | None => loadTrxDailyFlowList decode rest (acc ++ [row])
      end
  end.

(** [func (db *MongoDbBridge) TrxDailyFlowList(from, to *time.Time)];
    both bounds are given, since the function formats them for its log
    before anything else; [find_err] is the error of [col.Find]. *)
Definition TrxDailyFlowList (find_err : option error)
           (decode : VolumeDoc -> option error) (from to : Z)
           (st : Store) : option (list VolumeDoc) * option error :=
  match find_err with
  | Some err => (None, Some err)
  | None =>
      loadTrxDailyFlowList decode
        (snd <$> find_volumes (Some from) (Some to) (trx_volume st)) []
  end.

(** The sum of a field over documents of [trx_volume]. *)
Definition sumV (f : VolumeDoc -> Z) (docs : list VolumeDoc) : Z :=
  foldr (fun d a => f d + a) 0 docs.

(** The sum of an accumulator over the groups of a roll-up. *)
Definition total (acc : Group -> Z) (m : gmap Z Group) : Z :=
  map_fold (fun _ g a => acc g + a) 0 m.

(** A document is in the range of the gas aggregation. *)
Definition in_gas_range (from to : Z) (d : TrxDoc) : bool :=
  trxDailyFlowListFilter (Some from) (Some to) d.
End DbQueries.

(** ** Package repository: what a run of the updater reads *)

Module Schedules.
Import Repository.

(** A case of the [select] that reads the transaction count without
    error. *)
Definition is_count_ok (c : Select) : bool :=
  match c with CountTick (inl _) => true | _ => false end.

Definition no_count_ok (cases : list Select) : bool :=
  forallb (fun c => negb (is_count_ok c)) cases.

Definition no_flow_tick (cases : list Select) : bool :=
  forallb (fun c => negb (is_flow_tick c)) cases.
End Schedules.

(** ** Package resolvers: which registry a case of the loop concerns *)

Module Registries.
Section WithTypes.
Variables SubBlock SubTrx Block Trx : Type.

(** The cases of [run] that are not about block subscriptions, and
    those that are not about transaction subscriptions; the stop signal
    is in both. *)
Definition not_on_blocks (c : Broadcast.Select SubBlock SubTrx Block Trx) : bool :=
  match c with
  | Broadcast.UnsubscribeOnBlock _ | Broadcast.SubscribeOnBlock _
  | Broadcast.OnBlockEvent _ => false
  | _ => true
  end.

Definition not_on_trxs (c : Broadcast.Select SubBlock SubTrx Block Trx) : bool :=
  match c with
  | Broadcast.UnsubscribeOnTrx _ | Broadcast.SubscribeOnTrx _
  | Broadcast.OnTrxEvent _ => false
  | _ => true
  end.
End WithTypes.

Arguments not_on_blocks {SubBlock SubTrx Block Trx} c.
Arguments not_on_trxs {SubBlock SubTrx Block Trx} c.
End Registries.

(** ** Package resolvers: counting the attempts of a synchronisation *)

Module SyncCounts.
Import Sync.

(** The goroutines that have finished. *)
Definition finished_count (st : State) : nat :=
  length (List.filter is_finished (routines st)).

(** The request of an exchange was sent with the bytes [buf] as its body. *)
Definition carries (buf : list byte) (e : Exchange) : bool :=
  if List.list_eq_dec Byte.byte_eq_dec (ex_body e) buf then true else false.
End SyncCounts.

(** ** Package resolvers: the price symbol *)

Module Price.
Definition error : Type := string.

(** The part of the syntax of [regexp] that the expression of the price
    symbol uses: the start and the end of the text, and a character
    class repeated between [lo] and [hi] times. *)
Inductive Item : Type :=
| BeginText
| EndText
| Repeat (class : ascii -> bool) (lo hi : nat).

(** A class repeated between [lo] and [hi] times, [n] times so far, and
    then [k]: as many characters of the class first as [k] allows. *)
Fixpoint rep (class : ascii -> bool) (lo hi : nat)
         (k : bool -> list ascii -> bool)
         (n : nat) (at_start : bool) (s : list ascii) : bool :=
  match s with
  | c :: s' =>
      ((n <? hi)%nat && class c && rep class lo hi k (S n) false s')
      || ((lo <=? n)%nat && k at_start s)
  | [] => (lo <=? n)%nat && k at_start s
  end.

(** Whether the items match at the current place of the text;
    [at_start] tells whether the place is the start of the text. *)
Fixpoint match_here (items : list Item) : bool -> list ascii -> bool :=
  match items with
  | [] => fun _ _ => true
  | BeginText :: rest => fun at_start s => at_start && match_here rest at_start s
  | EndText :: rest =>
      fun at_start s =>
        match s with [] => match_here rest at_start s | _ => false end
  | Repeat class lo hi :: rest => rep class lo hi (match_here rest) O
  end.

(** [re.Match]: the items match at some place of the text. *)
Fixpoint match_from (items : list Item) (at_start : bool) (s : list ascii) : bool :=
  match_here items at_start s
  || match s with
     | [] => false
     | _ :: s' => match_from items false s'
     end.

Definition Match (items : list Item) (s : string) : bool :=
  match_from items true (list_ascii_of_string s).

(** The class [\w]: a digit, a letter or the underscore. *)
Definition word (c : ascii) : bool :=
  let n := N_of_ascii c in
  ((48 <=? n) && (n <=? 57) || (65 <=? n) && (n <=? 90)
   || (97 <=? n) && (n <=? 122) || (n =? 95))%N.

(** [reExpectedPriceSymbol = regexp.MustCompile(`^[\w]{2,4}$`)] *)
Definition reExpectedPriceSymbol : list Item :=
  [BeginText; Repeat word 2 4; EndText].

Section WithRepository.
(** The price that the repository resolves for a symbol. *)
Variable P : Type.
Variable repo_Price : string -> P + error.

(** [func (rs *rootResolver) Price(args *struct{ To string }) (types.Price, error)] *)
Definition Price (to : string) : P + error :=
  if negb (Match reExpectedPriceSymbol to)
  then inr "invalid denomination received"%string
  else repo_Price to.
End WithRepository.

Arguments Price {P} repo_Price to.
End Price.

(** ** Package db: accounts *)

Module Accounts.
Local Open Scope Z_scope.

Definition error : Type := string.

(** [defaultERC20ListLength] *)
Definition defaultERC20ListLength : Z := 25.

(** The fields of [types.Account] that the bridge reads and writes;
    addresses and hashes are their bytes. *)
Module types.
Record Account : Type := mkAccount {
  Address : list byte;
  ContractTx : option (list byte);
  Type_ : string;
  LastActivity : Z;
  TrxCounter : Z
}.
End types.

(** [AccountRow] without its key: the key [_id], the text of the
    address, is the key of the collection. *)
Record AccountRow : Type := mkAccountRow {
  row_Type : string;
  row_Sc : option string;
  row_Activity : Z;
  row_Counter : Z
}.

(** The error of [InsertOne] on a key that the collection has. *)
Definition ErrDuplicateKey : error := "E11000 duplicate key error".

Section WithCodec.
(** The texts of addresses and hashes and their readers, of
    go-ethereum, and the account type of an ERC20 token, a constant
    declared outside these sources. *)
Variable AddressString : list byte -> string.
Variable HashString : list byte -> string.
Variable HexToHash : string -> list byte.
Variable HexToAddress : string -> list byte.
Variable AccountTypeERC20Token : string.

(** [func (db *MongoDbBridge) Account(addr *common.Address)], which returns
    the account, or nil, and the error;
    [find_err] is an error of [FindOne] other than the missing document,
    [decode_err] that of [sr.Decode]. *)
Definition Account (find_err decode_err : option error)
           (col : gmap string AccountRow) (addr : list byte)
  : option types.Account * option error :=
  match find_err with
  | Some err => (None, Some err)
  | None =>
      match col !! AddressString addr with
      | None => (None, None)
      | Some row =>
          match decode_err with
          | Some err => (None, Some err)
          | None =>
              (Some (types.mkAccount addr (HexToHash <$> row_Sc row)
                                     (row_Type row) (row_Activity row)
                                     (row_Counter row)),
               None)
          end
      end
  end.

(** [func (db *MongoDbBridge) AddAccount(acc *types.Account) error];
    [insert_err] is an error of the driver itself. *)
Definition AddAccount (insert_err : option error)
           (col : gmap string AccountRow) (acc : option types.Account)
  : gmap string AccountRow * option error :=
  match acc with
  | None => (col, Some "can not add empty account"%string)
  | Some acc =>
      let conTx := HashString <$> types.ContractTx acc in
      match insert_err with
      | Some err => (col, Some err)
      | None =>
          match col !! AddressString (types.Address acc) with
          | Some _ => (col, Some ErrDuplicateKey)
          | None =>
              (<[AddressString (types.Address acc) :=
                   mkAccountRow (types.Type_ acc) conTx (types.LastActivity acc)
                                (types.TrxCounter acc)]> col,
               None)
          end
      end
  end.

(** [func (db *MongoDbBridge) IsAccountKnown(addr *common.Address) (bool, error)] *)
Definition IsAccountKnown (find_err : option error)
           (col : gmap string AccountRow) (addr : list byte)
  : bool * option error :=
  match find_err with
  | Some err => (false, Some err)
  | None =>
      match col !! AddressString addr with
      | None => (false, None)
      | Some _ => (true, None)
      end
  end.

(** The update of [AccountMarkActivity]: [$set] of the last activity
    and [$inc] of the transaction counter by one; the counter is an
    integer without bound here, as long as it stays below the limit of
    the stored number. *)
Definition mark (ts : Z) (row : AccountRow) : AccountRow :=
  mkAccountRow (row_Type row) (row_Sc row) ts (row_Counter row + 1).

(** [func (db *MongoDbBridge) AccountMarkActivity(addr *common.Address, ts uint64) error]:
    [UpdateOne] on the key, which updates nothing when no document has
    it. *)
Definition AccountMarkActivity (update_err : option error)
           (col : gmap string AccountRow) (addr : list byte) (ts : Z)
  : gmap string AccountRow * option error :=
  match update_err with
  | Some err => (col, Some err)
  | None => (alter (mark ts) (AddressString addr) col, None)
  end.

(** The order of [SetSort] in [Erc20TokensList]: the transaction counter
    descending, then the last activity descending. *)
Definition by_activity (a b : string * AccountRow) : Prop :=
  row_Counter (snd b) < row_Counter (snd a)
  \/ (row_Counter (snd a) = row_Counter (snd b)
      /\ row_Activity (snd b) <= row_Activity (snd a)).

Definition by_activity_dec a b : Decision (by_activity a b) :=
  or_dec (Z_lt_dec _ _) (and_dec (Z.eq_dec _ _) (Z_le_dec _ _)).
#[global] Existing Instance by_activity_dec.

Definition is_erc20 (kr : string * AccountRow) : bool :=
  String.eqb (row_Type (snd kr)) AccountTypeERC20Token.

(** The rows that [col.Find] of [Erc20TokensList] delivers. *)
Definition find_erc20 (limit : Z) (col : gmap string AccountRow)
  : list (string * AccountRow) :=
  firstn (Z.to_nat limit)
    (merge_sort by_activity (List.filter is_erc20 (map_to_list col))).

(** [func (db *MongoDbBridge) loadErc20TokensList(cursor) ([]common.Address, error)];
    [decode] tells the rows that do not decode. *)
Fixpoint loadErc20TokensList (decode : string * AccountRow -> option error)
         (rows : list (string * AccountRow)) (acc : list (list byte))
  : option (list (list byte)) * option error :=
  match rows with
  | [] => (Some acc, None)
  | row :: rest =>
      match decode row with
      | Some err => (None, Some err)
      | None => loadErc20TokensList decode rest (acc ++ [HexToAddress (fst row)])
      end
  end.

(** [func (db *MongoDbBridge) Erc20TokensList(count int32) ([]common.Address, error)] *)
Definition Erc20TokensList (find_err : option error)
           (decode : string * AccountRow -> option error)
           (col : gmap string AccountRow) (count : Z)
  : option (list (list byte)) * option error :=
  let count := if count <=? 0 then defaultERC20ListLength else count in
  match find_err with
  | Some err => (None, Some err)
  | None => loadErc20TokensList decode (find_erc20 count col) []
  end.

(** Marking an account at each of a list of times, in turn. *)
Definition mark_all (col : gmap string AccountRow) (addr : list byte)
           (tss : list Z) : gmap string AccountRow :=
  foldl (fun c ts => fst (AccountMarkActivity None c addr ts)) col tss.
End WithCodec.
End Accounts.

(** ** More sample values *)

Module MoreSamples.
Import Samples.

(** A repository with the deploying transaction of [sample_contract],
    and a compiler that rejects the source. *)
Definition cv_rejected : Validator.Collaborators :=
  Validator.mkCollaborators
    (fun h => inl (Validator.mkTransaction h (Some [xab; xcd]) [x60]))
    hex_address hex_address
    (fun _ => inr "ParserError: expected pragma"%string)
    (fun _ _ => None) (fun c _ => (c, None)).

(** The same with a compiler that accepts it and a match step that
    finds no artefact. *)
Definition cv_unmatched : Validator.Collaborators :=
  Validator.mkCollaborators
    (fun h => inl (Validator.mkTransaction h (Some [xab; xcd]) [x60]))
    hex_address hex_address
    (fun _ => inl [Validator.mkArtefact "C" [x61]])
    (fun _ _ => None) (fun c _ => (c, None)).

(** Three transactions, of day 1, day 1 and day 0. *)
Definition sample_store : Db.Store :=
  Db.mkStore [Db.mkTrxDoc 86400000 5 21000; Db.mkTrxDoc 90000000 7 30000;
              Db.mkTrxDoc 1000 1 1] ∅.

(** The bytes that a hexadecimal text with prefix 0x denotes. *)
Fixpoint unhex_pairs (s : string) : list byte :=
  match s with
  | String hi (String lo rest) => Uuid.unhex hi lo :: unhex_pairs rest
  | _ => []
  end.

Definition sample_HexToBytes (s : string) : list byte :=
  match s with
  | String _ (String _ rest) => unhex_pairs rest
  | _ => []
  end.

Definition sample_account : Accounts.types.Account :=
  Accounts.types.mkAccount [xde; xad] (Some [xbe; xef]) "erc20" 1600000000 3.
End MoreSamples.

(* ===================================================================== *)
(** * Part II: theorems                                                   *)
(* ===================================================================== *)

(** ** listLimitCount *)

Section ListLimitCount.
Import GoInt Paging.
Local Open Scope Z_scope.

Lemma int32_id z : is_int32 z -> int32 z = z.
Proof.
  unfold is_int32, int32. intros H.
  rewrite Z.mod_small by lia. lia.
Qed.

Lemma uint32_id z : is_uint32 z -> uint32 z = z.
Proof. unfold is_uint32, uint32. intros H. now rewrite Z.mod_small by lia. Qed.

Lemma listLimitCount_zero L : 0 < L <= maxInt32 -> listLimitCount 0 L = L.
Proof.
  unfold maxInt32. intros H. unfold listLimitCount. simpl.
  apply int32_id. unfold is_int32. lia.
Qed.

Lemma listLimitCount_inside c L :
  is_int32 c -> 0 < L <= maxInt32 -> c <> 0 -> Z.abs c < L ->
  listLimitCount c L = c.
Proof.
  unfold maxInt32, is_int32. intros Hc HL Hnz Habs. unfold listLimitCount, neg32.
  rewrite (int32_id L) by (unfold is_int32; lia).
  rewrite (int32_id (- L)) by (unfold is_int32; lia).
  destruct (Z.eqb_spec c 0) as [|_]; [lia|].
  destruct (Z.ltb_spec 0 c) as [Hpos|Hneg]; simpl.
  - rewrite uint32_id by (unfold is_uint32; lia).
    destruct (Z.ltb_spec c L); [reflexivity | lia].
  - destruct (Z.ltb_spec c 0); [|lia]. simpl.
    destruct (Z.ltb_spec (- L) c); [reflexivity | lia].
Qed.

Lemma listLimitCount_outside c L :
  is_int32 c -> 0 < L <= maxInt32 -> L <= Z.abs c ->
  listLimitCount c L = Z.sgn c * L.
Proof.
  unfold maxInt32, is_int32. intros Hc HL Habs. unfold listLimitCount, neg32.
  rewrite (int32_id L) by (unfold is_int32; lia).
  rewrite (int32_id (- L)) by (unfold is_int32; lia).
  destruct (Z.eqb_spec c 0) as [|_]; [lia|].
  destruct (Z.ltb_spec 0 c) as [Hpos|Hneg]; simpl.
  - rewrite uint32_id by (unfold is_uint32; lia).
    destruct (Z.ltb_spec c L); [lia|].
    destruct (Z.ltb_spec c 0); [lia|]. simpl.
    rewrite Z.sgn_pos by lia. lia.
  - destruct (Z.ltb_spec c 0); [|lia]. simpl.
    destruct (Z.ltb_spec (- L) c); [lia|].
    rewrite Z.sgn_neg by lia. lia.
Qed.

(** C5 (as amended): for every [int32] count [c] and every limit [L] with
    [0 < L <= 2^31 - 1], [listLimitCount 0 L = L]; [listLimitCount c L = c]
    when [c] is not zero and [|c| < L]; [listLimitCount c L = sign c * L]
    when [|c| >= L]; and the four sample values of the specification hold. *)
Theorem listLimitCount_clamps c L :
  is_int32 c -> 0 < L <= maxInt32 ->
  listLimitCount 0 L = L
  /\ (c <> 0 -> Z.abs c < L -> listLimitCount c L = c)
  /\ (L <= Z.abs c -> listLimitCount c L = Z.sgn c * L)
  /\ listLimitCount 150 100 = 100
  /\ listLimitCount (-150) 100 = -100
  /\ listLimitCount 50 100 = 50
  /\ listLimitCount 0 100 = 100.
Proof.
  intros Hc HL. split; [now apply listLimitCount_zero|].
  split; [now apply listLimitCount_inside|].
  split; [now apply listLimitCount_outside|].
  repeat split; reflexivity.
Qed.

Lemma listLimitCount_clamps_witness :
  is_int32 (-7) /\ 0 < 5 <= maxInt32
  /\ listLimitCount (-7) 5 = -5 /\ listLimitCount 0 5 = 5.
Proof.
  assert (Hc : is_int32 (-7)) by (unfold is_int32; lia).
  assert (HL : 0 < 5 <= maxInt32) by (unfold maxInt32; lia).
  destruct (listLimitCount_clamps (-7) 5 Hc HL) as (H0 & _ & Hout & _).
  split; [exact Hc|]. split; [exact HL|].
  split; [apply Hout; lia | exact H0].
Defined.

(** C5 as stated fails for a positive [uint32] limit above [2^31 - 1]:
    the limit does not fit the [int32] result and wraps. *)
Lemma listLimitCount_large_limit :
  is_int32 0 /\ is_uint32 2147483648 /\ 0 < 2147483648
  /\ listLimitCount 0 2147483648 = -2147483648
  /\ listLimitCount 0 2147483648 <> 2147483648
  /\ listLimitCount (-150) 2147483649 = 2147483647.
Proof.
  unfold is_int32, is_uint32. repeat split; try lia; try reflexivity.
  vm_compute. discriminate.
Qed.
End ListLimitCount.

(** ** uuid *)

Section UuidFacts.
Import Uuid.

Lemma hexhi_is_hex b : is_hex_digit (hexhi b) = true.
Proof. destruct b; reflexivity. Qed.

Lemma hexlo_is_hex b : is_hex_digit (hexlo b) = true.
Proof. destruct b; reflexivity. Qed.

Lemma version_nibble b : hexhi (or (and_not b xf0) x40) = "4"%char.
Proof. destruct b; reflexivity. Qed.

Lemma variant_nibble b :
  is_variant_digit (hexhi (or (and_not b xc0) x80)) = true.
Proof. destruct b; reflexivity. Qed.

Lemma variant_bits b :
  N.testbit (Byte.to_N (or (and_not b xc0) x80)) 7 = true
  /\ N.testbit (Byte.to_N (or (and_not b xc0) x80)) 6 = false.
Proof. destruct b; split; reflexivity. Qed.

Lemma unhex_hex b : unhex (hexhi b) (hexlo b) = b.
Proof. destruct b; reflexivity. Qed.

Lemma hex_inj b c : hexhi b = hexhi c -> hexlo b = hexlo c -> b = c.
Proof.
  intros Hh Hl. rewrite <- (unhex_hex b), <- (unhex_hex c). now rewrite Hh, Hl.
Qed.

Lemma fmtx_inj bs cs : length bs = length cs -> fmtx bs = fmtx cs -> bs = cs.
Proof.
  revert cs. induction bs as [|b bs IH]; intros [|c cs] Hlen Heq;
    try discriminate; [reflexivity|].
  simpl in Heq. injection Heq as Hh Hl Hr.
  f_equal; [now apply hex_inj | apply IH; [now injection Hlen | exact Hr]].
Qed.

Lemma fmtx_length bs : String.length (fmtx bs) = (2 * length bs)%nat.
Proof. induction bs as [|b bs IH]; simpl; [reflexivity | rewrite IH; lia]. Qed.

Lemma stamp_length u : length (stamp u) = length u.
Proof.
  assert (Hset : forall l i v, length (set_ l i v) = length l).
  { induction l as [|x l IH]; intros [|i] v; simpl; auto. }
  unfold stamp. now rewrite !Hset.
Qed.

Lemma format_inj u v :
  length u = 16%nat -> length v = 16%nat -> format u = format v -> u = v.
Proof.
  intros Hu Hv.
  do 16 (destruct u as [|? u]; [discriminate|]).
  destruct u; [|discriminate].
  do 16 (destruct v as [|? v]; [discriminate|]).
  destruct v; [|discriminate].
  cbv [format slice String.append firstn skipn fmtx Nat.sub]. intros H.
  injection H as H.
  repeat match goal with
         | Hh : hexhi ?a = hexhi ?b, Hl : hexlo ?a = hexlo ?b |- _ =>
             pose proof (hex_inj a b Hh Hl); clear Hh Hl
         end.
  congruence.
Qed.

Lemma uuid_read_ok bs f :
  length bs = 16%nat -> uuid (mkReader bs f) = (format (stamp bs), None).
Proof.
  intros H. unfold uuid, ReadFull. cbn [avail fault]. rewrite H. cbn [Nat.leb].
  rewrite <- H, firstn_all, H. cbn [Nat.eqb negb orb]. reflexivity.
Qed.

Lemma uuid_shape bs :
  length bs = 16%nat -> uuid_v4_shape (format (stamp bs)) = true.
Proof.
  intros H.
  do 16 (destruct bs as [|? bs]; [discriminate|]).
  destruct bs; [|discriminate].
  cbv [uuid_v4_shape format stamp slice String.append firstn skipn fmtx
       Nat.sub set_ at_ nth].
  cbn.
  rewrite ?hexhi_is_hex, ?hexlo_is_hex, version_nibble, variant_nibble.
  reflexivity.
Qed.

(** C6 (as amended): for every 16 byte value read from the random source
    without error, [uuid] returns no error and a string of the UUID v4
    shape (groups of 8-4-4-4-12 lower-case hexadecimal digits, version
    digit 4, top two bits of the ninth byte 10); two values that still
    differ after the six version and variant bits are overwritten yield
    distinct identifiers. *)
Theorem uuid_v4_format bs f :
  length bs = 16%nat ->
  exists s,
    uuid (mkReader bs f) = (s, None)
    /\ uuid_v4_shape s = true
    /\ N.testbit (Byte.to_N (at_ (stamp bs) 8)) 7 = true
    /\ N.testbit (Byte.to_N (at_ (stamp bs) 8)) 6 = false
    /\ forall bs' f', length bs' = 16%nat -> stamp bs' <> stamp bs ->
                      fst (uuid (mkReader bs' f')) <> s.
Proof.
  intros H. exists (format (stamp bs)).
  split; [now apply uuid_read_ok|].
  split; [now apply uuid_shape|].
  assert (Hbits : N.testbit (Byte.to_N (at_ (stamp bs) 8)) 7 = true
                  /\ N.testbit (Byte.to_N (at_ (stamp bs) 8)) 6 = false).
  { do 16 (destruct bs as [|? bs]; [discriminate|]).
    cbv [stamp set_ at_ nth]. apply variant_bits. }
  split; [apply Hbits|]. split; [apply Hbits|].
  intros bs' f' H' Hne Heq. apply Hne.
  rewrite (uuid_read_ok bs' f' H') in Heq. cbn [fst] in Heq.
  apply format_inj; [now rewrite stamp_length .. | exact Heq].
Qed.

Lemma uuid_v4_format_witness :
  length (repeat x2a 16) = 16%nat
  /\ exists s, uuid (mkReader (repeat x2a 16) None) = (s, None)
               /\ uuid_v4_shape s = true.
Proof.
  split; [reflexivity|].
  destruct (uuid_v4_format (repeat x2a 16) None eq_refl) as (s & Hs & Hshape & _).
  exists s. split; [exact Hs | exact Hshape].
Defined.

(** C6 as stated fails: two distinct 16 byte values that differ only in
    an overwritten bit yield the same identifier. *)
Lemma uuid_collision :
  repeat x00 16 <> set_ (repeat x00 16) 6 x10
  /\ length (repeat x00 16) = 16%nat
  /\ length (set_ (repeat x00 16) 6 x10) = 16%nat
  /\ uuid (mkReader (repeat x00 16) None)
     = uuid (mkReader (set_ (repeat x00 16) 6 x10) None)
  /\ uuid (mkReader (repeat x00 16) None)
     = ("00000000-0000-4000-8000-000000000000"%string, None).
Proof.
  split; [discriminate|]. repeat split; reflexivity.
Qed.

(** A short read returns the empty string and the reader's error. *)
Lemma uuid_short_read :
  uuid (mkReader [x01; x02] None) = (EmptyString, Some ErrUnexpectedEOF).
Proof. reflexivity. Qed.
End UuidFacts.

(** ** ValidateContract *)

Section ValidateContractFacts.
Import Validator.
Variable cv : Collaborators.

Lemma ValidateContract_not_found sc err :
  repo_Transaction cv (TransactionHash sc) = inr err ->
  run_ValidateContract cv sc
  = (Some err,
     mkWorld sc [EvLookup (TransactionHash sc);
                 EvLogError ("contract deployment not found; " ++ err)]).
Proof.
  intros H. unfold run_ValidateContract, ValidateContract, call_Transaction,
    Errorf, bind, read_sc, emit, ret. cbn. rewrite H. reflexivity.
Qed.

Lemma ValidateContract_mismatch sc tx :
  repo_Transaction cv (TransactionHash sc) = inl tx ->
  wrong_deployment cv tx sc = true ->
  run_ValidateContract cv sc
  = (Some "invalid contract details"%string,
     mkWorld sc [EvLookup (TransactionHash sc);
                 EvLogError ("invalid contract deployment tx "
                             ++ HashString cv (Hash tx) ++ " for "
                             ++ AddressString cv (Address sc))]).
Proof.
  intros H Hw. unfold run_ValidateContract, ValidateContract, call_Transaction,
    Errorf, bind, read_sc, emit, ret. cbn. rewrite H, Hw. reflexivity.
Qed.

(** C1: when the lookup of the deploying transaction fails,
    [ValidateContract] returns that error; when the transaction has no
    contract address, or one that differs from the claimed address even
    ignoring case, it returns the mismatch error; in both cases no
    compile, match or persist step runs and the contract, with its
    validated flag, is unchanged. *)
Theorem ValidateContract_stops_at_deployment sc :
  (forall err,
      repo_Transaction cv (TransactionHash sc) = inr err ->
      fst (run_ValidateContract cv sc) = Some err
      /\ no_pipeline_step (w_events (snd (run_ValidateContract cv sc))) = true
      /\ w_contract (snd (run_ValidateContract cv sc)) = sc
      /\ (Validated sc = false ->
          Validated (w_contract (snd (run_ValidateContract cv sc))) = false))
  /\ (forall tx,
      repo_Transaction cv (TransactionHash sc) = inl tx ->
      (ContractAddress tx = None
       \/ exists a, ContractAddress tx = Some a
                    /\ Strings.EqualFold (AddressString cv a)
                         (AddressString cv (Address sc)) = false) ->
      fst (run_ValidateContract cv sc) = Some "invalid contract details"%string
      /\ no_pipeline_step (w_events (snd (run_ValidateContract cv sc))) = true
      /\ w_contract (snd (run_ValidateContract cv sc)) = sc
      /\ (Validated sc = false ->
          Validated (w_contract (snd (run_ValidateContract cv sc))) = false)).
Proof.
  split.
  - intros err H. rewrite (ValidateContract_not_found sc err H). cbn.
    repeat split; auto.
  - intros tx H Hbad.
    assert (Hw : wrong_deployment cv tx sc = true).
    { unfold wrong_deployment. destruct Hbad as [-> | (a & -> & Hf)];
        [reflexivity | now rewrite Hf]. }
    rewrite (ValidateContract_mismatch sc tx H Hw). cbn.
    repeat split; auto.
Qed.
End ValidateContractFacts.

Section EqualFoldFacts.
Import Strings.
Local Open Scope N_scope.


Lemma fold_match_lower a b : fold_match a b = true <-> lower a = lower b.
Proof.
  unfold fold_match, lower.
  destruct (N.eqb_spec b a) as [->|Hne]; [tauto|].
  destruct (N.leb_spec 65 a), (N.leb_spec a 90),
           (N.leb_spec 65 b), (N.leb_spec b 90),
           (N.leb_spec 65 (N.min a b)), (N.leb_spec (N.min a b) 90),
           (N.eqb_spec (N.max a b) (N.min a b + 97 - 65));
    cbn; split; intros; try discriminate; try lia.
Qed.


(** [EqualFold] is equality up to ASCII letter case. *)
Lemma EqualFold_lower s t :
  EqualFold s t = true <-> lower_string s = lower_string t.
Proof.
  revert t. induction s as [|a s IH]; intros [|b t]; cbn;
    try (split; [discriminate | discriminate]); [tauto|].
  rewrite andb_true_iff, fold_match_lower, IH.
  split; [intros [-> ->]; reflexivity | intros H; injection H; auto].
Qed.

Example EqualFold_checksum_case :
  EqualFold "0xAbCdEf01" "0xabcdef01" = true
  /\ EqualFold "0xAbCdEf01" "0xabcdef02" = false.
Proof. split; reflexivity. Qed.
End EqualFoldFacts.

Section ValidateContractWitness.
Import Validator Samples.

Lemma ValidateContract_stops_at_deployment_witness :
  (repo_Transaction cv_missing (TransactionHash sample_contract)
   = inr "not found"%string
   /\ fst (run_ValidateContract cv_missing sample_contract)
      = Some "not found"%string)
  /\ (repo_Transaction cv_other (TransactionHash sample_contract)
      = inl (mkTransaction [x01] (Some [xab; xce]) [x60])
      /\ fst (run_ValidateContract cv_other sample_contract)
         = Some "invalid contract details"%string
      /\ Validated (w_contract (snd (run_ValidateContract cv_other sample_contract)))
         = false).
Proof.
  split.
  - split; [reflexivity|].
    apply (proj1 (ValidateContract_stops_at_deployment cv_missing sample_contract)
                 "not found"%string eq_refl).
  - split; [reflexivity|].
    destruct (proj2 (ValidateContract_stops_at_deployment cv_other sample_contract)
                    (mkTransaction [x01] (Some [xab; xce]) [x60]) eq_refl)
      as (Hr & _ & _ & Hv).
    + right. exists [xab; xce]. split; reflexivity.
    + split; [exact Hr | apply Hv; reflexivity].
Defined.
End ValidateContractWitness.

(** ** TrxDailyFlowUpdate *)

Section DailyFlow.
Import Db.
Local Open Scope Z_scope.

Lemma merge_doc_lookup col d k :
  merge_doc col d !! k = if decide (vd_id d = k) then Some d else col !! k.
Proof.
  unfold merge_doc. destruct (col !! vd_id d); rewrite lookup_insert;
    reflexivity.
Qed.

Lemma stage_merge_lookup docs : forall col k,
  stage_merge col docs !! k
  = match last_with k docs with Some r => Some r | None => col !! k end.
Proof.
  unfold stage_merge. induction docs as [|d docs IH]; intros col k; cbn;
    [reflexivity|].
  rewrite IH. destruct (last_with k docs); [reflexivity|].
  rewrite merge_doc_lookup. destruct (decide (vd_id d = k)); reflexivity.
Qed.

(** Merging the same documents a second time changes nothing. *)
Lemma stage_merge_twice col docs :
  stage_merge (stage_merge col docs) docs = stage_merge col docs.
Proof.
  apply map_eq. intros k. rewrite !stage_merge_lookup.
  destruct (last_with k docs); reflexivity.
Qed.

Lemma last_with_project (l : list (Z * Group)) k :
  NoDup l.*1 ->
  last_with k (stage_project <$> l)
  = (fun g => stage_project (k, g)) <$> (list_to_map l : gmap Z Group) !! k.
Proof.
  induction l as [|[k' g] l IH]; intros Hnd; cbn; [reflexivity|].
  inversion Hnd as [|? ? Hnotin Hnd']; subst.
  rewrite (IH Hnd'). rewrite lookup_insert.
  destruct (decide (k' = k)) as [->|Hne].
  - rewrite (not_elem_of_list_to_map_1 l k Hnotin). cbn.
    destruct (decide (k = k)); [reflexivity | congruence].
  - destruct (list_to_map l !! k) as [g'|]; cbn; [reflexivity|].
    destruct (decide (k' = k)); [congruence | reflexivity].
Qed.

Lemma last_with_rollup from docs k :
  last_with k (rollup from docs)
  = (fun g => stage_project (k, g))
      <$> stage_group (stage_match from docs) ∅ !! k.
Proof.
  unfold rollup. rewrite last_with_project by apply NoDup_fst_map_to_list.
  now rewrite list_to_map_to_list.
Qed.

Lemma stage_group_lookup docs : forall acc k,
  stage_group docs acc !! k
  = foldl step_group (acc !! k) (filter (fun d => day_of (stamp d) = k) docs).
Proof.
  induction docs as [|d docs IH]; intros acc k; [reflexivity|].
  rewrite filter_cons. cbn [stage_group]. rewrite IH.
  destruct (decide (day_of (stamp d) = k)) as [->|Hne]; cbn [foldl].
  - now rewrite lookup_partial_alter_eq.
  - now rewrite lookup_partial_alter_ne.
Qed.

Lemma sumZ_cons f d l : sumZ f (d :: l) = f d + sumZ f l.
Proof. reflexivity. Qed.

Lemma foldl_step_group_Some l : forall g,
  foldl step_group (Some g) l
  = Some (mkGroup (g_volume g + sumZ amo l) (g_gas g + sumZ gas_use l)
                  (g_value g + Z.of_nat (length l))).
Proof.
  induction l as [|d l IH]; intros [v gs n].
  - cbn. f_equal. f_equal; lia.
  - cbn [foldl step_group accumulate]. rewrite IH.
    cbn [g_volume g_gas g_value length]. rewrite !sumZ_cons.
    f_equal. f_equal; lia.
Qed.

Lemma foldl_step_group_None l :
  foldl step_group None l
  = match l with
    | [] => None
    | _ => Some (mkGroup (sumZ amo l) (sumZ gas_use l) (Z.of_nat (length l)))
    end.
Proof.
  destruct l as [|d l]; [reflexivity|].
  cbn [foldl step_group accumulate]. rewrite foldl_step_group_Some.
  cbn [g_volume g_gas g_value length]. rewrite !sumZ_cons.
    f_equal. f_equal; lia.
Qed.

Lemma rollup_row from docs day :
  trx_volume (after (TrxDailyFlowUpdate None None from docs)) !! day
  = match day_docs from day (transactions docs) with
    | [] => trx_volume docs !! day
    | l => Some (mkVolumeDoc day (toDate day) (sumZ amo l) (sumZ gas_use l)
                             (Z.of_nat (length l)))
    end.
Proof.
  cbn. rewrite stage_merge_lookup, last_with_rollup, stage_group_lookup.
  rewrite lookup_empty, foldl_step_group_None. unfold day_docs.
  destruct (filter _ (stage_match from (transactions docs))); reflexivity.
Qed.

Lemma close_error_irrelevant c from st :
  after (TrxDailyFlowUpdate None c from st)
  = after (TrxDailyFlowUpdate None None from st).
Proof. destruct c; reflexivity. Qed.

(** C4: a second run of [TrxDailyFlowUpdate] with the same [from] over
    the same transactions leaves the rows of the first run; after a run,
    the row of a day with transactions in range is the aggregate of
    those transactions alone, whatever row was there before, and the
    row of any other day is untouched. *)
Theorem TrxDailyFlowUpdate_idempotent c1 c2 from st :
  after (TrxDailyFlowUpdate None c2 from
           (after (TrxDailyFlowUpdate None c1 from st)))
  = after (TrxDailyFlowUpdate None c1 from st)
  /\ forall day,
      trx_volume (after (TrxDailyFlowUpdate None c1 from st)) !! day
      = match day_docs from day (transactions st) with
        | [] => trx_volume st !! day
        | l => Some (mkVolumeDoc day (toDate day) (sumZ amo l)
                                 (sumZ gas_use l) (Z.of_nat (length l)))
        end.
Proof.
  split.
  - rewrite (close_error_irrelevant c2), (close_error_irrelevant c1).
    cbn. f_equal. apply stage_merge_twice.
  - intros day. rewrite close_error_irrelevant. apply rollup_row.
Qed.

(** A driver failure leaves the store as it is and returns the error. *)
Lemma TrxDailyFlowUpdate_failure err c from st :
  TrxDailyFlowUpdate (Some err) c from st
  = (st, [Noticef "updating trx flow";
          Errorf ("can not update trx flow; " ++ err)], Some err).
Proof. reflexivity. Qed.

(** Two transactions of day 1 and one of day 0, rolled up twice over a
    stale row of day 1: the row counts two transactions, not four. *)
Example rollup_twice_sample :
  let st := mkStore [mkTrxDoc 86400000 5 21000; mkTrxDoc 90000000 7 30000;
                     mkTrxDoc 1000 1 1]
                    {[ 1 := mkVolumeDoc 1 86400000 99 99 99 ]} in
  let twice := after (TrxDailyFlowUpdate None None 86400000000000
                        (after (TrxDailyFlowUpdate None None 86400000000000 st))) in
  trx_volume twice !! 1 = Some (mkVolumeDoc 1 86400000 12 51000 2)
  /\ trx_volume twice !! 0 = None.
Proof. split; vm_compute; reflexivity. Qed.
End DailyFlow.

(** ** TrxGasSpeed *)

Section GasSpeed.
Import Db.
Local Open Scope Z_scope.

Lemma Sub_positive from to : from < to -> 0 < Time.Sub to from.
Proof.
  intros H. unfold Time.Sub, Time.maxDuration, Time.minDuration.
  destruct (Z.ltb_spec (2 ^ 63 - 1) (to - from)); [lia|].
  destruct (Z.ltb_spec (to - from) (- 2 ^ 63)); lia.
Qed.

Lemma Seconds_positive d : 0 < d -> (0 < Time.Seconds d)%Q.
Proof.
  intros H. unfold Time.Seconds, Time.Second.
  pose proof (Z.quot_rem' d 1000000000) as Hqr.
  assert (Hq : 0 <= Z.quot d 1000000000) by (apply Z.quot_pos; lia).
  assert (Hr : 0 <= Z.rem d 1000000000) by (apply Z.rem_nonneg; lia).
  unfold Qlt, Qplus, Qdiv, Qmult, Qinv, inject_Z. cbn. lia.
Qed.

(** C10: [TrxGasSpeed] returns 0.0 and the error "invalid time range
    requested" whenever [from] is not strictly before [to]; when it is,
    the number of seconds the gas volume is divided by is strictly
    positive, and a run without driver error returns that quotient. *)
Theorem TrxGasSpeed_time_range aggregate_err decode_err st from to :
  (to <= from ->
   TrxGasSpeed aggregate_err decode_err st from to
   = (0%Q, Some "invalid time range requested"%string))
  /\ (from < to ->
      (0 < Time.Seconds (Time.Sub to from))%Q
      /\ forall volume rest,
          gas_rows from to (transactions st) = volume :: rest ->
          TrxGasSpeed None None st from to
          = ((inject_Z volume / Time.Seconds (Time.Sub to from))%Q, None)).
Proof.
  split.
  - intros H. unfold TrxGasSpeed, Time.Before.
    destruct (Z.ltb_spec from to); [lia | reflexivity].
  - intros H. split; [apply Seconds_positive, Sub_positive, H|].
    intros volume rest Hrows. unfold TrxGasSpeed, Time.Before.
    destruct (Z.ltb_spec from to); [|lia]. cbn. now rewrite Hrows.
Qed.

Lemma TrxGasSpeed_time_range_witness :
  (5 <= 5
   /\ TrxGasSpeed None None (mkStore [] ∅) 5 5
      = (0%Q, Some "invalid time range requested"%string))
  /\ (0 < 2000000000
      /\ (0 < Time.Seconds (Time.Sub 2000000000 0))%Q
      /\ TrxGasSpeed None None (mkStore [mkTrxDoc 1000 1 21000] ∅) 0 2000000000
         = ((inject_Z 21000 / Time.Seconds (Time.Sub 2000000000 0))%Q, None)).
Proof.
  split.
  - split; [lia|].
    apply (proj1 (TrxGasSpeed_time_range None None (mkStore [] ∅) 5 5)). lia.
  - split; [lia|].
    destruct (proj2 (TrxGasSpeed_time_range None None
                       (mkStore [mkTrxDoc 1000 1 21000] ∅) 0 2000000000))
      as [Hpos Hval]; [lia|].
    split; [exact Hpos|]. apply (Hval 21000 []). reflexivity.
Defined.

(** Without a transaction in range the aggregation has no row and the
    call fails, whatever the range. *)
Lemma TrxGasSpeed_no_rows st from to :
  from < to -> gas_rows from to (transactions st) = [] ->
  TrxGasSpeed None None st from to
  = (0%Q, Some "gas speed aggregation failure"%string).
Proof.
  intros H Hrows. unfold TrxGasSpeed, Time.Before.
  destruct (Z.ltb_spec from to); [|lia]. cbn. now rewrite Hrows.
Qed.
End GasSpeed.

(** ** The transaction flow updater *)

Section FlowUpdater.
Import Repository.
Local Open Scope Z_scope.

(** The start of the roll-up range is the UTC midnight of [now], two
    days back. *)
Lemma flow_from_midnight now :
  flow_from now = Time.midnight now - 48 * Time.Hour.
Proof.
  unfold flow_from, Time.Clock, Time.second_of_day, Time.Nanosecond_of,
    Time.Add, Time.midnight, trxFlowUpdateRange, Time.Day, Time.Hour,
    Time.Minute, Time.Second, Time.Nanosecond.
  Z.div_mod_to_equations. lia.
Qed.

Lemma occurrences_act p a w :
  occurrences p (act a w)
  = (occurrences p w + (if p a then 1 else 0))%nat.
Proof.
  unfold occurrences, act. cbn [actions].
  rewrite List.filter_app, length_app. cbn. now destruct (p a).
Qed.

Lemma schedule_loop_app pre rest : forall w,
  no_stop pre = true ->
  schedule_loop (pre ++ rest) w = schedule_loop rest (snd (schedule_loop pre w)).
Proof.
  induction pre as [|c pre IH]; intros w H; [reflexivity|].
  cbn in H. apply andb_true_iff in H as [Hc Hpre].
  destruct c; [discriminate | apply IH, Hpre ..].
Qed.

Lemma schedule_loop_waiting pre : forall w,
  no_stop pre = true -> fst (schedule_loop pre w) = Waiting.
Proof.
  induction pre as [|c pre IH]; intros w H; [reflexivity|].
  cbn in H. apply andb_true_iff in H as [Hc Hpre].
  destruct c; [discriminate | apply IH, Hpre ..].
Qed.

Lemma occurrences_app p w w' l :
  actions w' = actions w ++ l ->
  occurrences p w' = (occurrences p w + length (List.filter p l))%nat.
Proof.
  intros H. unfold occurrences. now rewrite H, List.filter_app, length_app.
Qed.

Lemma TrxFlowUpdate_actions now a c w :
  actions (TrxFlowUpdate now a c w)
  = actions w ++ ActTrxDailyFlowUpdate (flow_from now)
      :: match a with
         | Some e => [ActLog Critical ("can not update trx flow; " ++ e)]
         | None => []
         end ++ [ActLog Debug "trx flow updated"].
Proof.
  unfold TrxFlowUpdate. destruct a, c; cbn; now rewrite <- ?app_assoc.
Qed.

Lemma TrxFlowUpdate_frame now a c w :
  store (TrxFlowUpdate now a c w)
  = Db.after (Db.TrxDailyFlowUpdate a c (flow_from now) (store w))
  /\ estimate (TrxFlowUpdate now a c w) = estimate w
  /\ flowTicker (TrxFlowUpdate now a c w) = flowTicker w
  /\ trxCountTicker (TrxFlowUpdate now a c w) = trxCountTicker w
  /\ wg (TrxFlowUpdate now a c w) = wg w.
Proof. unfold TrxFlowUpdate. destruct a, c; cbn; auto. Qed.

Lemma updateTrxCountEstimate_actions count w :
  actions (updateTrxCountEstimate count w)
  = actions w ++ ActTransactionsCount
      :: match count with
         | inl val => [ActUpdateTrxCountEstimate val]
         | inr err =>
             [ActLog Error ("can not update trx count estimation; " ++ err)]
         end.
Proof.
  unfold updateTrxCountEstimate. destruct count; cbn; now rewrite <- app_assoc.
Qed.

Lemma updateTrxCountEstimate_frame count w :
  store (updateTrxCountEstimate count w) = store w
  /\ estimate (updateTrxCountEstimate count w)
     = match count with inl val => val | inr _ => estimate w end
  /\ flowTicker (updateTrxCountEstimate count w) = flowTicker w
  /\ trxCountTicker (updateTrxCountEstimate count w) = trxCountTicker w
  /\ wg (updateTrxCountEstimate count w) = wg w.
Proof. unfold updateTrxCountEstimate. destruct count; cbn; auto. Qed.

(** What one pass over cases without a stop signal adds: a goroutine
    per count tick, a flow update per flow tick, and nothing to the
    wait group or the tickers. *)
Lemma schedule_loop_counts pre : forall w,
  no_stop pre = true ->
  let w' := snd (schedule_loop pre w) in
  occurrences is_go_update w'
  = (occurrences is_go_update w + length (List.filter is_count_tick pre))%nat
  /\ occurrences is_flow_update w'
     = (occurrences is_flow_update w + length (List.filter is_flow_tick pre))%nat
  /\ occurrences is_wg_done w' = occurrences is_wg_done w
  /\ occurrences is_ticker_stop w' = occurrences is_ticker_stop w
  /\ wg w' = wg w
  /\ flowTicker w' = flowTicker w
  /\ trxCountTicker w' = trxCountTicker w.
Proof.
  induction pre as [|c pre IH]; intros w H; [cbn; repeat split; lia|].
  cbn in H. apply andb_true_iff in H as [Hc Hpre].
  destruct c as [|now a e|count]; [discriminate| |]; cbn [schedule_loop].
  - specialize (IH (TrxFlowUpdate now a e
                      (logf Info "calling for trx flow update" w)) Hpre).
    cbn zeta in IH. destruct IH as (H1 & H2 & H3 & H4 & H5 & H6 & H7).
    pose proof (TrxFlowUpdate_frame now a e
                  (logf Info "calling for trx flow update" w))
      as (_ & _ & F1 & F2 & F3).
    rewrite H1, H2, H3, H4, H5, H6, H7, F1, F2, F3.
    rewrite !(occurrences_app _ _ _ _ (TrxFlowUpdate_actions now a e _)).
    unfold logf. rewrite !occurrences_act.
    destruct a; cbn; repeat split; lia.
  - specialize (IH (updateTrxCountEstimate count
                      (act ActGoUpdateTrxCountEstimate
                         (logf Info "calling for trx count update" w))) Hpre).
    cbn zeta in IH. destruct IH as (H1 & H2 & H3 & H4 & H5 & H6 & H7).
    pose proof (updateTrxCountEstimate_frame count
                  (act ActGoUpdateTrxCountEstimate
                     (logf Info "calling for trx count update" w)))
      as (_ & _ & F1 & F2 & F3).
    rewrite H1, H2, H3, H4, H5, H6, H7, F1, F2, F3.
    rewrite !(occurrences_app _ _ _ _ (updateTrxCountEstimate_actions count _)).
    unfold logf. rewrite !occurrences_act.
    destruct count; cbn; repeat split; lia.
Qed.

Lemma schedule_running first pre w :
  no_stop pre = true ->
  schedule first pre w
  = (Waiting, snd (schedule_loop pre (schedule_start first w))).
Proof.
  intros H. unfold schedule.
  pose proof (schedule_loop_waiting pre (schedule_start first w) H) as Hw.
  destruct (schedule_loop pre (schedule_start first w)) as [st w'].
  cbn in Hw. now subst st.
Qed.

Lemma schedule_stopped first pre post w :
  no_stop pre = true ->
  schedule first (pre ++ SigStop :: post) w
  = (Returned,
     schedule_deferred (snd (schedule_loop pre (schedule_start first w)))).
Proof.
  intros H. unfold schedule. now rewrite schedule_loop_app.
Qed.

Lemma schedule_start_actions first w :
  actions (schedule_start first w)
  = actions w
    ++ [ActLog Notice "trx flow updater is running";
        ActNewTicker trxFlowUpdaterPeriod;
        ActNewTicker trxCountUpdaterPeriod;
        ActGoUpdateTrxCountEstimate;
        ActTransactionsCount;
        match first with
        | inl val => ActUpdateTrxCountEstimate val
        | inr err =>
            ActLog Error ("can not update trx count estimation; " ++ err)
        end].
Proof.
  unfold schedule_start. rewrite updateTrxCountEstimate_actions.
  destruct first; cbn; now rewrite <- !app_assoc.
Qed.

End FlowUpdater.

Section FlowUpdaterWitness.
Import Repository.
Local Open Scope Z_scope.

End FlowUpdaterWitness.

(** ** The broadcast loop and the stop signal *)

Section StopSignal.
Local Open Scope Z_scope.
Variables SubBlock SubTrx Block Trx : Type.
Variable addBlockSubscriber :
  SubBlock -> gmap string SubBlock -> gmap string SubBlock.
Variable addTrxSubscriber :
  SubTrx -> gmap string SubTrx -> gmap string SubTrx.
Variable dispatchOnBlock :
  Block -> gmap string SubBlock -> gmap string SubBlock.
Variable dispatchOnTransaction :
  Trx -> gmap string SubTrx -> gmap string SubTrx.

Abbreviation Select := (Broadcast.Select SubBlock SubTrx Block Trx).
Abbreviation Resolver := (Broadcast.Resolver SubBlock SubTrx Block Trx).
Abbreviation run_loop :=
  (Broadcast.run_loop SubBlock SubTrx Block Trx addBlockSubscriber
     addTrxSubscriber dispatchOnBlock dispatchOnTransaction).
Abbreviation handle :=
  (Broadcast.handle SubBlock SubTrx Block Trx addBlockSubscriber
     addTrxSubscriber dispatchOnBlock dispatchOnTransaction).
Abbreviation start :=
  (Broadcast.start SubBlock SubTrx Block Trx addBlockSubscriber
     addTrxSubscriber dispatchOnBlock dispatchOnTransaction).

Lemma broadcast_occurrences_act p a (rs : Resolver) :
  Broadcast.occurrences p (Broadcast.act a rs)
  = (Broadcast.occurrences p rs + (if p a then 1 else 0))%nat.
Proof.
  unfold Broadcast.occurrences, Broadcast.act. cbn.
  rewrite List.filter_app, length_app. cbn. now destruct (p a).
Qed.

Lemma handle_frame c (rs : Resolver) :
  Broadcast.wg (handle c rs) = Broadcast.wg rs
  /\ Broadcast.actions (handle c rs)
     = Broadcast.actions rs ++ [Broadcast.ActHandled c].
Proof. destruct c; cbn; auto. Qed.

Lemma run_loop_app pre rest : forall rs : Resolver,
  Broadcast.no_stop pre = true ->
  run_loop (pre ++ rest) rs = run_loop rest (snd (run_loop pre rs)).
Proof.
  induction pre as [|c pre IH]; intros rs H; [reflexivity|].
  cbn in H. apply andb_true_iff in H as [Hc Hpre].
  destruct c; [discriminate | apply IH, Hpre ..].
Qed.

Lemma run_loop_counts pre : forall rs : Resolver,
  Broadcast.no_stop pre = true ->
  let rs' := snd (run_loop pre rs) in
  Broadcast.wg rs' = Broadcast.wg rs
  /\ Broadcast.occurrences Broadcast.is_wg_done rs'
     = Broadcast.occurrences Broadcast.is_wg_done rs
  /\ Broadcast.occurrences Broadcast.is_handled rs'
     = (Broadcast.occurrences Broadcast.is_handled rs + length pre)%nat.
Proof.
  induction pre as [|c pre IH]; intros rs H; [cbn; repeat split; lia|].
  cbn in H. apply andb_true_iff in H as [Hc Hpre].
  assert (Hgo : run_loop (c :: pre) rs = run_loop pre (handle c rs))
    by (destruct c; [discriminate | reflexivity ..]).
  cbv zeta. rewrite Hgo.
  destruct (IH (handle c rs) Hpre) as (H1 & H2 & H3).
  destruct (handle_frame c rs) as (F1 & F2).
  rewrite H1, H2, H3, F1. unfold Broadcast.occurrences.
  rewrite F2, !List.filter_app, !length_app. cbn. repeat split; lia.
Qed.

Lemma run_deferred_facts (rs : Resolver) :
  Broadcast.wg (Broadcast.run_deferred rs) = Broadcast.wg rs + -1
  /\ Broadcast.actions (Broadcast.run_deferred rs)
     = Broadcast.actions rs
       ++ [Broadcast.ActNotice "GraphQL resolver done"; Broadcast.ActWgDone].
Proof. cbn. split; [reflexivity | now rewrite <- app_assoc]. Qed.

Lemma broadcast_occurrences_app p (rs rs' : Resolver) l :
  Broadcast.actions rs' = Broadcast.actions rs ++ l ->
  Broadcast.occurrences p rs'
  = (Broadcast.occurrences p rs + length (List.filter p l))%nat.
Proof.
  intros H. unfold Broadcast.occurrences.
  now rewrite H, List.filter_app, length_app.
Qed.

Lemma start_stopped pre post (rs : Resolver) :
  Broadcast.no_stop pre = true ->
  let r := start (pre ++ [Broadcast.SigStop]) rs in
  start (pre ++ Broadcast.SigStop :: post) rs = r
  /\ fst r = true
  /\ Broadcast.wg (snd r) = Broadcast.wg rs
  /\ Broadcast.occurrences Broadcast.is_wg_done (snd r)
     = (Broadcast.occurrences Broadcast.is_wg_done rs + 1)%nat
  /\ Broadcast.occurrences Broadcast.is_handled (snd r)
     = (Broadcast.occurrences Broadcast.is_handled rs + length pre)%nat.
Proof.
  intros H. cbv zeta. unfold Broadcast.start, Broadcast.run.
  rewrite !(run_loop_app pre _ _ H). cbn [Broadcast.run_loop fst snd].
  split; [reflexivity|]. split; [reflexivity|].
  set (rs0 := Broadcast.act (Broadcast.ActNotice "GraphQL resolver started")
                (Broadcast.wg_Add 1 rs)).
  destruct (run_loop_counts pre rs0 H) as (H1 & H2 & H3).
  destruct (run_deferred_facts (snd (run_loop pre rs0))) as (D1 & D2).
  rewrite D1, H1, !(broadcast_occurrences_app _ _ _ _ D2), H2, H3.
  subst rs0. rewrite !broadcast_occurrences_act.
  change (Broadcast.occurrences ?p (Broadcast.wg_Add 1 rs))
    with (Broadcast.occurrences p rs).
  cbn [Broadcast.wg Broadcast.act Broadcast.wg_Add Broadcast.is_wg_done
       Broadcast.is_handled List.filter length].
  repeat split; lia.
Qed.

Lemma schedule_deferred_facts w :
  Repository.flowTicker (Repository.schedule_deferred w) = false
  /\ Repository.trxCountTicker (Repository.schedule_deferred w) = false
  /\ Repository.wg (Repository.schedule_deferred w) = Repository.wg w + -1
  /\ Repository.actions (Repository.schedule_deferred w)
     = Repository.actions w
       ++ [Repository.ActTickerStop Repository.trxFlowUpdaterPeriod;
           Repository.ActTickerStop Repository.trxCountUpdaterPeriod;
           Repository.ActLog Repository.Notice "trx flow updater is closed";
           Repository.ActWgDone].
Proof. cbn. repeat split. now rewrite <- !app_assoc. Qed.

Lemma schedule_start_wg first w :
  Repository.wg (Repository.schedule_start first w) = Repository.wg w.
Proof.
  unfold Repository.schedule_start.
  now destruct (updateTrxCountEstimate_frame first
    (Repository.act Repository.ActGoUpdateTrxCountEstimate
       (Repository.mkWorld
          (Repository.store
             (Repository.act (Repository.ActNewTicker Repository.trxCountUpdaterPeriod)
                (Repository.act (Repository.ActNewTicker Repository.trxFlowUpdaterPeriod)
                   (Repository.logf Repository.Notice "trx flow updater is running" w))))
          (Repository.estimate
             (Repository.act (Repository.ActNewTicker Repository.trxCountUpdaterPeriod)
                (Repository.act (Repository.ActNewTicker Repository.trxFlowUpdaterPeriod)
                   (Repository.logf Repository.Notice "trx flow updater is running" w))))
          true true
          (Repository.wg
             (Repository.act (Repository.ActNewTicker Repository.trxCountUpdaterPeriod)
                (Repository.act (Repository.ActNewTicker Repository.trxFlowUpdaterPeriod)
                   (Repository.logf Repository.Notice "trx flow updater is running" w))))
          (Repository.actions
             (Repository.act (Repository.ActNewTicker Repository.trxCountUpdaterPeriod)
                (Repository.act (Repository.ActNewTicker Repository.trxFlowUpdaterPeriod)
                   (Repository.logf Repository.Notice "trx flow updater is running" w)))))))
    as (_ & _ & _ & _ & ->).
Qed.

Lemma run_stopped first pre post w :
  Repository.no_stop pre = true ->
  let r := Repository.run first (pre ++ [Repository.SigStop]) w in
  Repository.run first (pre ++ Repository.SigStop :: post) w = r
  /\ fst r = Repository.Returned
  /\ Repository.flowTicker (snd r) = false
  /\ Repository.trxCountTicker (snd r) = false
  /\ Repository.wg (snd r) = Repository.wg w
  /\ Repository.occurrences Repository.is_ticker_stop (snd r)
     = (Repository.occurrences Repository.is_ticker_stop w + 2)%nat
  /\ Repository.occurrences Repository.is_wg_done (snd r)
     = (Repository.occurrences Repository.is_wg_done w + 1)%nat
  /\ Repository.occurrences Repository.is_flow_update (snd r)
     = (Repository.occurrences Repository.is_flow_update w
        + length (List.filter Repository.is_flow_tick pre))%nat
  /\ Repository.occurrences Repository.is_go_update (snd r)
     = (Repository.occurrences Repository.is_go_update w + 1
        + length (List.filter Repository.is_count_tick pre))%nat.
Proof.
  intros H. cbv zeta. unfold Repository.run.
  rewrite !(schedule_stopped first pre _ _ H). cbn [fst snd].
  split; [reflexivity|]. split; [reflexivity|].
  set (w0 := Repository.schedule_start first (Repository.wg_Add 1 w)).
  destruct (schedule_loop_counts pre w0 H) as (H1 & H2 & H3 & H4 & H5 & _).
  destruct (schedule_deferred_facts (snd (Repository.schedule_loop pre w0)))
    as (D1 & D2 & D3 & D4).
  rewrite D1, D2, D3, H5, !(occurrences_app _ _ _ _ D4), H1, H2, H3, H4.
  subst w0. rewrite schedule_start_wg.
  rewrite !(occurrences_app _ _ _ _
              (schedule_start_actions first (Repository.wg_Add 1 w))).
  change (Repository.occurrences ?p (Repository.wg_Add 1 w))
    with (Repository.occurrences p w).
  cbn [Repository.wg Repository.wg_Add].
  destruct first; cbn; repeat split; lia.
Qed.

(** C8: when the stop signal is taken, the scheduler of the transaction
    flow updater returns with both tickers stopped and one [Done] on
    the wait group, which gives back the entry that [run] added, and
    the broadcast loop of the resolver returns with one [Done] as well;
    the flow updates, count refreshes and handled cases are those
    before the signal, and what comes after it changes nothing. *)
Theorem stop_signal_ends_loops first pre post w bpre bpost (rs : Resolver) :
  Repository.no_stop pre = true ->
  Broadcast.no_stop bpre = true ->
  (let r := Repository.run first (pre ++ [Repository.SigStop]) w in
   Repository.run first (pre ++ Repository.SigStop :: post) w = r
   /\ fst r = Repository.Returned
   /\ Repository.flowTicker (snd r) = false
   /\ Repository.trxCountTicker (snd r) = false
   /\ Repository.wg (snd r) = Repository.wg w
   /\ Repository.occurrences Repository.is_ticker_stop (snd r)
      = (Repository.occurrences Repository.is_ticker_stop w + 2)%nat
   /\ Repository.occurrences Repository.is_wg_done (snd r)
      = (Repository.occurrences Repository.is_wg_done w + 1)%nat
   /\ Repository.occurrences Repository.is_flow_update (snd r)
      = (Repository.occurrences Repository.is_flow_update w
         + length (List.filter Repository.is_flow_tick pre))%nat
   /\ Repository.occurrences Repository.is_go_update (snd r)
      = (Repository.occurrences Repository.is_go_update w + 1
         + length (List.filter Repository.is_count_tick pre))%nat)
  /\ (let r := start (bpre ++ [Broadcast.SigStop]) rs in
      start (bpre ++ Broadcast.SigStop :: bpost) rs = r
      /\ fst r = true
      /\ Broadcast.wg (snd r) = Broadcast.wg rs
      /\ Broadcast.occurrences Broadcast.is_wg_done (snd r)
         = (Broadcast.occurrences Broadcast.is_wg_done rs + 1)%nat
      /\ Broadcast.occurrences Broadcast.is_handled (snd r)
         = (Broadcast.occurrences Broadcast.is_handled rs + length bpre)%nat).
Proof.
  intros H Hb. split; [now apply run_stopped | now apply start_stopped].
Qed.
End StopSignal.

Section StopSignalWitness.
Import Samples.
Local Open Scope Z_scope.

Lemma stop_signal_ends_loops_witness :
  Repository.no_stop [Repository.CountTick (inl 3)] = true
  /\ Broadcast.no_stop [sample_unsubscribe] = true
  /\ fst (Repository.run (inl 1)
            ([Repository.CountTick (inl 3)]
               ++ Repository.SigStop :: [Repository.CountTick (inl 4)])
            (Repository.initial (Db.mkStore [] ∅) 0))
     = Repository.Returned
  /\ Repository.estimate
       (snd (Repository.run (inl 1)
               ([Repository.CountTick (inl 3)]
                  ++ Repository.SigStop :: [Repository.CountTick (inl 4)])
               (Repository.initial (Db.mkStore [] ∅) 0))) = 3
  /\ fst (sample_start ([sample_unsubscribe]
                          ++ Broadcast.SigStop :: [sample_unsubscribe])
                       sample_resolver) = true.
Proof.
  split; [reflexivity|]. split; [reflexivity|].
  destruct (stop_signal_ends_loops unit unit unit unit
              (fun _ m => m) (fun _ m => m) (fun _ m => m) (fun _ m => m)
              (inl 1) [Repository.CountTick (inl 3)]
              [Repository.CountTick (inl 4)]
              (Repository.initial (Db.mkStore [] ∅) 0)
              [sample_unsubscribe] [sample_unsubscribe] sample_resolver
              eq_refl eq_refl) as ((Hr & Hst & _) & (Hb & Hbt & _)).
  split; [rewrite Hr; exact Hst|].
  split; [rewrite Hr; reflexivity|].
  unfold sample_start. rewrite Hb. exact Hbt.
Defined.
End StopSignalWitness.

(** ** Contract synchronisation *)

Section PeerSync.
Import Validator Sync.
Local Open Scope Z_scope.

Variable Encode : Payload -> list byte + error.
Variable url_ok : string -> bool.
Variable respond : string -> list byte -> Z + error.
Variable origin : string.

Abbreviation step := (Sync.step url_ok respond origin).
Abbreviation run_routines := (Sync.run_routines url_ok respond origin).
Abbreviation syncContract := (Sync.syncContract Encode url_ok respond).

Lemma count_insert {A} (p : A -> bool) (l : list A) i x y :
  l !! i = Some y ->
  (length (List.filter p (<[i := x]> l)) + (if p y then 1 else 0)
   = length (List.filter p l) + (if p x then 1 else 0))%nat.
Proof.
  intros H. pose proof (lookup_lt_Some _ _ _ H) as Hlt.
  rewrite insert_take_drop by exact Hlt.
  rewrite <- (take_drop_middle l i y H) at 3.
  rewrite !List.filter_app, !length_app. cbn.
  destruct (p x), (p y); cbn; lia.
Qed.

(** A step of goroutine [i] leaves the other goroutines where they are
    and keeps the peers. *)
Lemma step_others i j st :
  i <> j -> routines (step i st) !! j = routines st !! j.
Proof.
  intros Hne. unfold Sync.step.
  destruct (routines st !! i) as [[peer [|req|]]|] eqn:Hi; try reflexivity.
  - destruct (url_ok peer); cbn; unfold set_pc; cbn;
      now rewrite list_lookup_insert_ne.
  - cbn. destruct (_ : Z + error) as [code|err]; [destruct (code =? 200)|];
      cbn; unfold set_pc; cbn; now rewrite list_lookup_insert_ne.
Qed.

Lemma step_peers i st : (routines (step i st)).*1 = (routines st).*1.
Proof.
  assert (Hins : forall peer pc, routines st !! i = Some (peer, pc) ->
            forall pc', (<[i := (peer, pc')]> (routines st)).*1 = (routines st).*1).
  { intros peer pc H pc'. rewrite list_fmap_insert. cbn.
    apply list_insert_id. rewrite list_lookup_fmap, H. reflexivity. }
  unfold Sync.step.
  destruct (routines st !! i) as [[peer [|req|]]|] eqn:Hi; try reflexivity.
  - destruct (url_ok peer); cbn; unfold set_pc; cbn; eapply Hins; eauto.
  - cbn. destruct (_ : Z + error) as [code|err]; [destruct (code =? 200)|];
      cbn; unfold set_pc; cbn; eapply Hins; eauto.
Qed.

(** A step of goroutine [i] takes it one stage further, unless it has
    finished. *)
Lemma step_rank i st :
  (Nat.min 2 (rank_at i st + 1) <= rank_at i (step i st))%nat.
Proof.
  unfold rank_at at 1. unfold Sync.step.
  destruct (routines st !! i) as [[peer [|req|]]|] eqn:Hi.
  - pose proof (lookup_lt_Some _ _ _ Hi) as Hlt.
    destruct (url_ok peer); unfold rank_at; cbn; unfold set_pc; cbn;
      rewrite list_lookup_insert_eq by exact Hlt; cbn; lia.
  - pose proof (lookup_lt_Some _ _ _ Hi) as Hlt.
    cbn. destruct (_ : Z + error) as [code|err]; [destruct (code =? 200)|];
      unfold rank_at; cbn; unfold set_pc; cbn;
      rewrite list_lookup_insert_eq by exact Hlt; cbn; lia.
  - unfold rank_at. rewrite Hi. cbn. lia.
  - unfold rank_at. rewrite Hi. cbn. lia.
Qed.

Lemma step_rank_mono i j st : (rank_at j st <= rank_at j (step i st))%nat.
Proof.
  destruct (decide (i = j)) as [->|Hne].
  - pose proof (step_rank j st) as H. unfold rank_at in *.
    destruct (routines st !! j) as [[? []]|]; cbn in *; lia.
  - unfold rank_at. now rewrite step_others.
Qed.

Lemma run_routines_snoc sched i st :
  run_routines (sched ++ [i]) st = step i (run_routines sched st).
Proof. unfold Sync.run_routines. now rewrite foldl_app. Qed.

Lemma run_routines_peers sched st :
  (routines (run_routines sched st)).*1 = (routines st).*1.
Proof.
  induction sched as [|i sched IH] using rev_ind; [reflexivity|].
  now rewrite run_routines_snoc, step_peers.
Qed.

(** After [n] turns a goroutine is [n] stages further, up to the last
    stage, whatever the other goroutines did in between. *)
Lemma run_routines_rank sched i st :
  (Nat.min 2 (rank_at i st + count_occ Nat.eq_dec sched i)
   <= rank_at i (run_routines sched st))%nat.
Proof.
  induction sched as [|j sched IH] using rev_ind;
    [cbn [count_occ Sync.run_routines foldl]; lia|].
  rewrite run_routines_snoc, count_occ_app. cbn [count_occ].
  destruct (Nat.eq_dec j i) as [->|Hne].
  - pose proof (step_rank i (run_routines sched st)). lia.
  - pose proof (step_rank_mono j i (run_routines sched st)). lia.
Qed.

(** The counter of the wait group is the number of goroutines that
    have not finished. *)
Lemma step_wg i st :
  wg st = Z.of_nat (unfinished st) ->
  wg (step i st) = Z.of_nat (unfinished (step i st)).
Proof.
  intros Hwg. unfold Sync.step.
  destruct (routines st !! i) as [[peer [|req|]]|] eqn:Hi; try exact Hwg.
  - destruct (url_ok peer); cbn; unfold unfinished, set_pc; cbn.
    + pose proof (count_insert (fun r => negb (is_finished r)) _ i
                    (peer, Prepared (Header_Set "Origin" origin
                       (Header_Set "Content-Type" "application/json"
                          (mkRequest "POST" peer ∅ (length (payload st))
                             contractSyncCallTimeout))))
                    _ Hi) as Hc.
      cbn in Hc. unfold unfinished in Hwg. cbn in *. lia.
    + pose proof (count_insert (fun r => negb (is_finished r)) _ i
                    (peer, Finished) _ Hi) as Hc.
      cbn in Hc. unfold unfinished in Hwg. lia.
  - pose proof (count_insert (fun r => negb (is_finished r)) _ i
                  (peer, Finished) _ Hi) as Hc.
    cbn in Hc. unfold unfinished in Hwg.
    cbn. destruct (_ : Z + error) as [code|err]; [destruct (code =? 200)|];
      cbn; unfold unfinished, set_pc; cbn; lia.
Qed.

Lemma run_routines_wg sched st :
  wg st = Z.of_nat (unfinished st) ->
  wg (run_routines sched st) = Z.of_nat (unfinished (run_routines sched st)).
Proof.
  intros H. induction sched as [|i sched IH] using rev_ind; [exact H|].
  rewrite run_routines_snoc. now apply step_wg.
Qed.

Lemma unfinished_zero st : unfinished st = 0%nat <-> all_finished st = true.
Proof.
  unfold unfinished, all_finished.
  induction (routines st) as [|r l IH]; cbn; [tauto|].
  destruct (is_finished r); cbn; [exact IH|]. split; [lia | discriminate].
Qed.

Lemma all_finished_rank st :
  all_finished st = true <->
  forall i, (i < length (routines st))%nat -> rank_at i st = 2%nat.
Proof.
  unfold all_finished, rank_at. rewrite forallb_forall. split.
  - intros H i Hi. destruct (lookup_lt_is_Some_2 _ _ Hi) as [[peer pc] Hl].
    rewrite Hl. specialize (H (peer, pc)).
    assert (Hin : In (peer, pc) (routines st))
      by (apply list_elem_of_In, list_elem_of_lookup; eauto).
    specialize (H Hin). unfold is_finished in H. cbn in H.
    now destruct pc.
  - intros H [peer pc] Hin.
    apply list_elem_of_In, list_elem_of_lookup in Hin as [i Hl].
    specialize (H i (lookup_lt_Some _ _ _ Hl)). rewrite Hl in H.
    unfold is_finished. cbn. now destruct pc.
Qed.

Lemma spawned_wg peers buf :
  let st := mkState buf ((fun p => (p, Started)) <$> peers)
                    (Z.of_nat (length peers)) [] [] in
  wg st = Z.of_nat (unfinished st).
Proof.
  cbn. unfold unfinished. cbn. f_equal.
  induction peers as [|p peers IH]; cbn; [reflexivity | now rewrite <- IH].
Qed.

Lemma syncContract_spawned peers con sched buf :
  peers <> [] ->
  Encode (payload_of con) = inl buf ->
  let st := run_routines sched
              (mkState buf ((fun p => (p, Started)) <$> peers)
                       (Z.of_nat (length peers)) [] []) in
  syncContract peers origin con sched
  = if wg st =? 0
    then (Returned,
          logf (Debugf "validation syncing finished")
            (logf (Debugf "waiting for validation syncing to finish") st))
    else (Waiting,
          logf (Debugf "waiting for validation syncing to finish") st).
Proof.
  intros Hne Henc. unfold Sync.syncContract, constructMutationPayload.
  rewrite Henc. destruct peers; [congruence | reflexivity].
Qed.


(** *** The requests on the wire *)


Lemma new_request_ok peer n :
  well_formed peer origin
    (new_request origin peer n).
Proof.
  unfold well_formed, new_request, Header_Set. cbn [req_method req_url req_header req_timeout].
  split; [reflexivity|]. split; [reflexivity|].
  split; [rewrite lookup_insert_ne by discriminate; apply lookup_insert_eq|].
  split; [apply lookup_insert_eq | reflexivity].
Qed.

Lemma step_requests_ok i st : requests_ok origin st -> requests_ok origin (step i st).
Proof.
  intros [Hr Hw]. unfold requests_ok. rewrite step_peers.
  unfold Sync.step.
  destruct (routines st !! i) as [[peer [|req|]]|] eqn:Hi;
    try (split; assumption).
  - destruct (url_ok peer); cbn; unfold set_pc; cbn;
      (split; [apply Forall_insert; [exact Hr|] | exact Hw]).
    + apply new_request_ok.
    + exact I.
  - assert (Hreq : well_formed peer origin req).
    { rewrite Forall_lookup in Hr. exact (Hr i _ Hi). }
    assert (Hex : forall body result,
               Forall (exchange_ok origin (routines st).*1)
                      (wire st ++ [mkExchange req body result])).
    { intros body result. apply Forall_app. split; [exact Hw|].
      apply Forall_singleton. unfold exchange_ok. cbn.
      destruct Hreq as (Hm & Hu & Hrest). rewrite Hu. split.
      - apply list_elem_of_fmap. exists (peer, Prepared req).
        split; [reflexivity | apply list_elem_of_lookup; eauto].
      - unfold well_formed. rewrite <- Hu at 1. tauto. }
    cbn. destruct (_ : Z + error) as [code|err]; [destruct (code =? 200)|];
      cbn; unfold set_pc; cbn;
      (split; [apply Forall_insert; [exact Hr | exact I] | apply Hex]).
Qed.

Lemma run_routines_requests_ok sched st :
  requests_ok origin st -> requests_ok origin (run_routines sched st).
Proof.
  intros H. induction sched as [|i sched IH] using rev_ind; [exact H|].
  rewrite run_routines_snoc. now apply step_requests_ok.
Qed.

(** *** The shared buffer *)

Lemma step_conserves i st : sent_and_left (step i st) = sent_and_left st.
Proof.
  unfold Sync.step.
  destruct (routines st !! i) as [[peer [|req|]]|] eqn:Hi; try reflexivity.
  - destruct (url_ok peer); reflexivity.
  - cbn. destruct (_ : Z + error) as [code|err]; [destruct (code =? 200)|];
      unfold sent_and_left, deferred, logf; cbn;
      rewrite fmap_app, concat_app; cbn;
      rewrite app_nil_r, <- app_assoc; now rewrite firstn_skipn.
Qed.

Lemma run_routines_conserves sched st :
  sent_and_left (run_routines sched st) = sent_and_left st.
Proof.
  induction sched as [|i sched IH] using rev_ind; [reflexivity|].
  now rewrite run_routines_snoc, step_conserves.
Qed.

Lemma two_bodies (l : list (list byte)) a b x y :
  a <> b -> l !! a = Some x -> l !! b = Some y ->
  (length x + length y <= length (concat l))%nat.
Proof.
  revert a b. induction l as [|z l IH]; intros a b Hne Ha Hb; [discriminate|].
  cbn [concat]. rewrite length_app.
  destruct a as [|a], b as [|b]; cbn in Ha, Hb; try congruence.
  - injection Ha as ->.
    assert (length y <= length (concat l))%nat; [|lia].
    clear -Hb. revert b Hb. induction l as [|z l IH]; intros b Hb;
      [discriminate|].
    cbn [concat]. rewrite length_app. destruct b as [|b]; cbn in Hb.
    + injection Hb as ->. lia.
    + specialize (IH b Hb). lia.
  - injection Hb as ->.
    assert (length x <= length (concat l))%nat; [|lia].
    clear -Ha. revert a Ha. induction l as [|z l IH]; intros a Ha;
      [discriminate|].
    cbn [concat]. rewrite length_app. destruct a as [|a]; cbn in Ha.
    + injection Ha as ->. lia.
    + specialize (IH a Ha). lia.
  - assert (a <> b) by congruence. specialize (IH a b H Ha Hb). lia.
Qed.

Lemma syncContract_wire peers con sched buf :
  peers <> [] ->
  Encode (payload_of con) = inl buf ->
  wire (snd (syncContract peers origin con sched))
  = wire (run_routines sched
            (mkState buf ((fun p => (p, Started)) <$> peers)
                     (Z.of_nat (length peers)) [] [])).
Proof.
  intros Hne Henc. rewrite (syncContract_spawned peers con sched buf Hne Henc).
  cbv zeta. now destruct (wg _ =? 0).
Qed.

(** X16: every request that is sent goes to a configured peer as a POST with
    the two headers and the timeout of 60 seconds. *)
Lemma syncContract_requests peers con sched buf :
  peers <> [] ->
  Encode (payload_of con) = inl buf ->
  Forall (exchange_ok origin peers) (wire (snd (syncContract peers origin con sched))).
Proof.
  intros Hne Henc. rewrite (syncContract_wire peers con sched buf Hne Henc).
  set (st0 := mkState buf ((fun p => (p, Started)) <$> peers)
                      (Z.of_nat (length peers)) [] []).
  assert (H0 : requests_ok origin st0).
  { split; [|constructor]. subst st0. cbn.
    apply Forall_fmap, Forall_true. intros p. exact I. }
  destruct (run_routines_requests_ok sched st0 H0) as [_ Hw].
  rewrite run_routines_peers in Hw. subst st0. cbn [routines] in Hw.
  assert (Heq : ((fun p : string => (p, Started)) <$> peers).*1 = peers)
    by (rewrite <- list_fmap_compose; apply list_fmap_id).
  now rewrite Heq in Hw.
Qed.

(** Whatever the schedule, the bodies sent are consecutive pieces of
    the one encoded payload: two requests never both carry it. *)
Lemma syncContract_one_full_body peers con sched buf a b ea eb :
  peers <> [] ->
  Encode (payload_of con) = inl buf ->
  a <> b ->
  wire (snd (syncContract peers origin con sched)) !! a = Some ea ->
  wire (snd (syncContract peers origin con sched)) !! b = Some eb ->
  ex_body ea = buf -> ex_body eb = buf -> buf = [].
Proof.
  intros Hne Henc Hab Ha Hb Hea Heb.
  rewrite (syncContract_wire peers con sched buf Hne Henc) in Ha, Hb.
  set (st0 := mkState buf ((fun p => (p, Started)) <$> peers)
                      (Z.of_nat (length peers)) [] []) in *.
  pose proof (run_routines_conserves sched st0) as Hc.
  unfold sent_and_left in Hc. subst st0. cbn [wire payload fmap] in Hc.
  cbn in Hc. apply (f_equal (@length byte)) in Hc. rewrite length_app in Hc.
  pose proof (two_bodies (ex_body <$> wire (run_routines sched
                 (mkState buf ((fun p => (p, Started)) <$> peers)
                          (Z.of_nat (length peers)) [] [])))
                a b (ex_body ea) (ex_body eb) Hab) as Htwo.
  rewrite !list_lookup_fmap, Ha, Hb in Htwo.
  specialize (Htwo eq_refl eq_refl). rewrite Hea, Heb in Htwo.
  destruct buf; [reflexivity | cbn in *; lia].
Qed.


Lemma view_step i st : view (step i st) = step_view url_ok respond origin i (view st).
Proof.
  unfold view, step_view, Sync.step.
  destruct (routines st !! i) as [[peer [|req|]]|] eqn:Hi; try reflexivity.
  - destruct (url_ok peer); reflexivity.
  - unfold Do, exchange. cbn -[pretty].
    destruct (_ : Z + error) as [code|err]; [destruct (code =? 200)|];
      reflexivity.
Qed.

(** C2 (the code departs from the claim): every request is a POST to
    its peer with the two headers and the timeout, but the body is
    read off the one buffer that all attempts share; with two peers
    that run one after the other, the first request carries the
    encoded payload and drains the buffer, and the second is sent with
    content length 0 and no body. *)
Theorem syncContract_second_body_empty p0 p1 con buf :
  Encode (payload_of con) = inl buf ->
  url_ok p0 = true -> url_ok p1 = true ->
  let r := syncContract [p0; p1] origin con [0; 0; 1; 1]%nat in
  ex_body <$> wire (snd r) = [buf; []]
  /\ (fun e => req_ContentLength (ex_request e)) <$> wire (snd r)
     = [length buf; 0%nat]
  /\ (fun e => req_url (ex_request e)) <$> wire (snd r) = [p0; p1]
  /\ fst r = Returned.
Proof.
  intros Henc H0 H1. cbv zeta.
  rewrite (syncContract_spawned [p0; p1] con _ buf ltac:(discriminate) Henc).
  cbv zeta.
  set (st := run_routines [0; 0; 1; 1]%nat _).
  assert (Hv : view st
               = ([], [(p0, Finished); (p1, Finished)], 0,
                  [exchange respond (new_request origin p0 (length buf)) buf;
                   exchange respond (new_request origin p1 0) []])).
  { subst st. unfold Sync.run_routines. cbn [foldl].
    rewrite !view_step. unfold view. cbn [payload routines wg wire fmap list_fmap].
    unfold step_view at 4. cbn [lookup list_lookup]. rewrite H0.
    unfold step_view at 3. cbn [lookup list_lookup insert list_insert].
    unfold step_view at 2. cbn [lookup list_lookup insert list_insert].
    rewrite H1. cbn [new_request Header_Set req_ContentLength].
    rewrite skipn_all. cbn [length].
    unfold step_view. cbn [lookup list_lookup insert list_insert].
    cbn [new_request Header_Set req_ContentLength skipn app].
    reflexivity. }
  unfold view in Hv. injection Hv as Hp Hr Hw Hx.
  rewrite Hw. cbn [Z.eqb fst snd logf wire]. rewrite Hx.
  unfold exchange. cbn [fmap list_fmap ex_body ex_request new_request
                        Header_Set req_ContentLength req_url].
  rewrite firstn_all. repeat split; reflexivity.
Qed.
End PeerSync.

Section PeerSyncWitness.
Import Sync Samples.
Local Open Scope Z_scope.


Lemma syncContract_second_body_empty_witness :
  sample_Encode (payload_of sample_validated) = inl sample_body
  /\ sample_body <> []
  /\ ex_body <$> wire (snd (sample_sync [0; 0; 1; 1]%nat)) = [sample_body; []]
  /\ ex_result <$> wire (snd (sample_sync [0; 0; 1; 1]%nat))
     = [inl 200; inl 400].
Proof.
  assert (Henc : sample_Encode (payload_of sample_validated) = inl sample_body)
    by reflexivity.
  destruct (syncContract_second_body_empty sample_Encode (fun _ => true)
              sample_respond sample_origin
              "https://api-a.example/api" "https://api-b.example/api"
              sample_validated sample_body Henc eq_refl eq_refl)
    as (Hbodies & _).
  split; [exact Henc|]. split; [discriminate|].
  split; [exact Hbodies | reflexivity].
Defined.
End PeerSyncWitness.

(** ** Request coalescing *)

Section Coalescing.
Import SingleFlight.
Variable R : Type.

Lemma run_app (evs1 evs2 : list (Event R)) g :
  run (evs1 ++ evs2) g
  = (fst (run evs2 (fst (run evs1 g))),
     snd (run evs1 g) ++ snd (run evs2 (fst (run evs1 g)))).
Proof.
  revert g. induction evs1 as [|e evs1 IH]; intros g; cbn [run app].
  - cbn [fst snd app]. now destruct (run evs2 g).
  - destruct (step e g) as [g' out]. rewrite IH.
    destruct (run evs1 g') as [g1 o1]. cbn [fst snd].
    now rewrite app_assoc.
Qed.

(** While the execution for [k] is in flight and does not complete,
    the calls for [k] join it and none executes. *)
Lemma run_in_flight (mid : list (Event R)) k : forall g f,
  g !! k = Some f ->
  forallb (fun e => negb (completes k e)) mid = true ->
  fst (run mid g) !! k
  = Some (mkFlight (executor f) (joined f ++ callers_of k mid))
  /\ forallb (fun o => negb (executes k o)) (snd (run mid g)) = true.
Proof.
  induction mid as [|e mid IH]; intros g f Hg Hmid; cbn [run callers_of].
  - cbn. rewrite app_nil_r. now destruct f.
  - cbn [forallb] in Hmid. apply andb_true_iff in Hmid as [He Hmid].
    destruct e as [c k'|k' r]; cbn [step].
    + destruct (String.eqb_spec k' k) as [->|Hne].
      * rewrite Hg.
        destruct (IH (<[k := mkFlight (executor f) (joined f ++ [c])]> g)
                     (mkFlight (executor f) (joined f ++ [c]))
                     (lookup_insert_eq _ _ _) Hmid) as [H1 H2].
        destruct (run mid _) as [g' outs]. cbn [fst snd app] in *.
        rewrite H1. cbn. now rewrite <- app_assoc.
      * assert (Hk : forall v, <[k' := v]> g !! k = Some f)
          by (intros v; now rewrite lookup_insert_ne).
        destruct (g !! k') as [f'|].
        -- destruct (IH _ f (Hk (mkFlight (executor f') (joined f' ++ [c])))
                       Hmid) as [H1 H2].
           destruct (run mid _) as [g' outs]. cbn [fst snd app] in *.
           now split.
        -- destruct (IH _ f (Hk (mkFlight c [])) Hmid) as [H1 H2].
           destruct (run mid _) as [g' outs]. cbn [fst snd app forallb] in *.
           split; [exact H1|]. rewrite H2. cbn.
           destruct (String.eqb_spec k' k); [congruence | reflexivity].
    + cbn in He. destruct (String.eqb_spec k' k) as [->|Hne]; [discriminate|].
      destruct (g !! k') as [f'|].
      * assert (Hk : delete k' g !! k = Some f)
          by now rewrite lookup_delete_ne.
        destruct (IH _ f Hk Hmid) as [H1 H2].
        destruct (run mid _) as [g' outs]. cbn [fst snd] in *.
        split; [exact H1|]. rewrite forallb_app, H2. cbn.
        rewrite andb_true_r. clear. induction (joined f'); cbn; auto.
      * destruct (IH _ f Hg Hmid) as [H1 H2].
        destruct (run mid _) as [g' outs]. cbn [fst snd app] in *.
        now split.
Qed.

(** C9: from a call for a key with no execution in flight until that
    execution completes, the first caller alone executes; every later
    call for the key in between joins it without executing, and on
    completion the first caller and all that joined receive the one
    result. *)
Theorem validation_is_coalesced pre mid c0 k (r : R) :
  fst (run pre ∅) !! k = None ->
  forallb (fun e => negb (completes k e)) mid = true ->
  let g0 := fst (run pre ∅) in
  snd (run [Call (R:=R) c0 k] g0) = [Executes c0 k]
  /\ forallb (fun o => negb (executes k o))
             (snd (run mid (fst (run [Call (R:=R) c0 k] g0)))) = true
  /\ snd (run [Complete k r] (fst (run mid (fst (run [Call (R:=R) c0 k] g0)))))
     = Receives c0 k r :: ((fun c => Receives c k r) <$> callers_of k mid)
  /\ fst (run (pre ++ [Call c0 k] ++ mid ++ [Complete k r]) ∅) !! k = None.
Proof.
  intros Hfree Hmid g0. subst g0. set (g0 := fst (run pre ∅)) in *.
  assert (Hcall : run [Call (R:=R) c0 k] g0
                  = (<[k := mkFlight c0 []]> g0, [Executes c0 k : Output R])).
  { cbn. now rewrite Hfree. }
  rewrite Hcall. cbn [fst snd].
  destruct (run_in_flight mid k (<[k := mkFlight c0 []]> g0) (mkFlight c0 [])
              (lookup_insert_eq _ _ _) Hmid) as [H1 H2].
  cbn [executor joined app] in H1.
  split; [reflexivity|]. split; [exact H2|].
  assert (Hdone : run [Complete k r] (fst (run mid (<[k := mkFlight c0 []]> g0)))
                  = (delete k (fst (run mid (<[k := mkFlight c0 []]> g0))),
                     Receives c0 k r
                       :: ((fun c => Receives c k r) <$> callers_of k mid))).
  { cbn. rewrite H1. cbn. now rewrite app_nil_r. }
  split; [now rewrite Hdone|].
  rewrite !run_app. cbn [fst]. fold g0. rewrite Hcall. cbn [fst].
  rewrite Hdone. cbn [fst]. apply lookup_delete_eq.
Qed.
End Coalescing.

Section CoalescingWitness.
Import SingleFlight.

Lemma validation_is_coalesced_witness :
  fst (run [Call (R:=bool) 1 "0xab"; Complete "0xab" true] ∅) !! "0xab"%string = None
  /\ snd (run [Complete "0xab" false]
           (fst (run [Call (R:=bool) 3 "0xab"; Call 4 "0xcd"; Call 5 "0xab"]
                   (fst (run [Call (R:=bool) 2 "0xab"]
                           (fst (run [Call (R:=bool) 1 "0xab"; Complete "0xab" true] ∅)))))))
     = [Receives 2 "0xab" false; Receives 3 "0xab" false;
        Receives 5 "0xab" false].
Proof.
  split; [reflexivity|].
  destruct (validation_is_coalesced bool
              [Call (R:=bool) 1 "0xab"; Complete "0xab" true]
              [Call 3 "0xab"; Call 4 "0xcd"; Call 5 "0xab"]
              2 "0xab" false eq_refl eq_refl) as (_ & _ & H & _).
  exact H.
Defined.
End CoalescingWitness.

(* ===================================================================== *)
(** * Part III: further properties of the code                            *)
(* ===================================================================== *)

(** ** ValidateContract: the steps after the deployment check *)

Section ValidateContractPipeline.
Import Validator.
Variable cv : Collaborators.

Lemma ValidateContract_compile_failed sc tx err :
  repo_Transaction cv (TransactionHash sc) = inl tx ->
  wrong_deployment cv tx sc = false ->
  Compile cv (SourceCode sc) = inr err ->
  run_ValidateContract cv sc
  = (Some err,
     mkWorld sc [EvLookup (TransactionHash sc); EvCompile (SourceCode sc);
                 EvLogError ("compilation failed; " ++ err)]).
Proof.
  intros H Hw Hc. unfold run_ValidateContract, ValidateContract,
    call_Transaction, call_Compile, Errorf, bind, read_sc, emit, ret.
  cbn. rewrite H, Hw. cbn. rewrite Hc. reflexivity.
Qed.

Lemma ValidateContract_no_match sc tx arts :
  repo_Transaction cv (TransactionHash sc) = inl tx ->
  wrong_deployment cv tx sc = false ->
  Compile cv (SourceCode sc) = inl arts ->
  MatchArtefact cv arts (InputData tx) = None ->
  run_ValidateContract cv sc
  = (Some "deployed contract does not match the source code provided"%string,
     mkWorld sc [EvLookup (TransactionHash sc); EvCompile (SourceCode sc);
                 EvMatch (InputData tx)]).
Proof.
  intros H Hw Hc Hm. unfold run_ValidateContract, ValidateContract,
    call_Transaction, call_Compile, call_MatchArtefact, Errorf, bind, read_sc,
    emit, ret.
  cbn. rewrite H, Hw. cbn. rewrite Hc. cbn. rewrite Hm. reflexivity.
Qed.

Lemma ValidateContract_matched sc tx arts art :
  repo_Transaction cv (TransactionHash sc) = inl tx ->
  wrong_deployment cv tx sc = false ->
  Compile cv (SourceCode sc) = inl arts ->
  MatchArtefact cv arts (InputData tx) = Some art ->
  run_ValidateContract cv sc
  = (snd (MarkValidated cv sc art),
     mkWorld (fst (MarkValidated cv sc art))
             [EvLookup (TransactionHash sc); EvCompile (SourceCode sc);
              EvMatch (InputData tx); EvPersist art]).
Proof.
  intros H Hw Hc Hm. unfold run_ValidateContract, ValidateContract,
    call_Transaction, call_Compile, call_MatchArtefact, call_MarkValidated,
    Errorf, bind, read_sc, write_sc, emit, ret.
  cbn. rewrite H, Hw. cbn. rewrite Hc. cbn. rewrite Hm. cbn.
  destruct (MarkValidated cv sc art) as [sc' e]. reflexivity.
Qed.

(** X1: a compiler error is returned as it is, and when no compiled
    artefact matches the deployed input the error is "deployed contract
    does not match the source code provided"; in both cases nothing is
    persisted and the contract is unchanged. *)
Theorem ValidateContract_compile_and_match_errors sc tx :
  repo_Transaction cv (TransactionHash sc) = inl tx ->
  wrong_deployment cv tx sc = false ->
  (forall err,
      Compile cv (SourceCode sc) = inr err ->
      fst (run_ValidateContract cv sc) = Some err
      /\ w_contract (snd (run_ValidateContract cv sc)) = sc
      /\ forall art, ~ In (EvPersist art)
                         (w_events (snd (run_ValidateContract cv sc))))
  /\ (forall arts,
      Compile cv (SourceCode sc) = inl arts ->
      MatchArtefact cv arts (InputData tx) = None ->
      fst (run_ValidateContract cv sc)
      = Some "deployed contract does not match the source code provided"%string
      /\ w_contract (snd (run_ValidateContract cv sc)) = sc
      /\ forall art, ~ In (EvPersist art)
                         (w_events (snd (run_ValidateContract cv sc)))).
Proof.
  intros H Hw. split.
  - intros err Hc. rewrite (ValidateContract_compile_failed sc tx err H Hw Hc).
    cbn. repeat split. intros art [E|[E|[E|[]]]]; discriminate.
  - intros arts Hc Hm.
    rewrite (ValidateContract_no_match sc tx arts H Hw Hc Hm).
    cbn. repeat split. intros art [E|[E|[E|[]]]]; discriminate.
Qed.

(** X2: whatever the collaborators do, [ValidateContract] persists only
    an artefact that the match step selected from the compilation of the
    contract's own source against the input of its deploying
    transaction; without a persist step the contract is unchanged and
    the result is an error. *)
Theorem ValidateContract_persists_only_a_match sc :
  (forall art,
      In (EvPersist art) (w_events (snd (run_ValidateContract cv sc))) ->
      exists tx arts,
        repo_Transaction cv (TransactionHash sc) = inl tx
        /\ wrong_deployment cv tx sc = false
        /\ Compile cv (SourceCode sc) = inl arts
        /\ MatchArtefact cv arts (InputData tx) = Some art
        /\ w_contract (snd (run_ValidateContract cv sc))
           = fst (MarkValidated cv sc art)
        /\ fst (run_ValidateContract cv sc) = snd (MarkValidated cv sc art))
  /\ ((forall art,
         ~ In (EvPersist art) (w_events (snd (run_ValidateContract cv sc)))) ->
      w_contract (snd (run_ValidateContract cv sc)) = sc
      /\ fst (run_ValidateContract cv sc) <> None).
Proof.
  destruct (repo_Transaction cv (TransactionHash sc)) as [tx|err] eqn:H.
  2:{ rewrite (ValidateContract_not_found cv sc err H). cbn. split.
      - intros art [E|[E|[]]]; discriminate.
      - intros _. split; [reflexivity | discriminate]. }
  destruct (wrong_deployment cv tx sc) eqn:Hw.
  { rewrite (ValidateContract_mismatch cv sc tx H Hw). cbn. split.
    - intros art [E|[E|[]]]; discriminate.
    - intros _. split; [reflexivity | discriminate]. }
  destruct (Compile cv (SourceCode sc)) as [arts|err] eqn:Hc.
  2:{ rewrite (ValidateContract_compile_failed sc tx err H Hw Hc). cbn. split.
      - intros art [E|[E|[E|[]]]]; discriminate.
      - intros _. split; [reflexivity | discriminate]. }
  destruct (MatchArtefact cv arts (InputData tx)) as [art|] eqn:Hm.
  2:{ rewrite (ValidateContract_no_match sc tx arts H Hw Hc Hm). cbn. split.
      - intros art [E|[E|[E|[]]]]; discriminate.
      - intros _. split; [reflexivity | discriminate]. }
  rewrite (ValidateContract_matched sc tx arts art H Hw Hc Hm). cbn. split.
  - intros art' [E|[E|[E|[E|[]]]]]; try discriminate.
    injection E as <-. exists tx, arts. repeat split; assumption.
  - intros Hnone. exfalso. apply (Hnone art). right. right. right. now left.
Qed.
End ValidateContractPipeline.

(** ** listLimitCount: the size of the result *)

Section ListLimitCountBounds.
Import GoInt Paging.
Local Open Scope Z_scope.

(** X3: for a limit that fits [int32], the result of [listLimitCount] is
    never zero, is at most the limit in absolute value, keeps the
    direction of a count that is not zero without exceeding it, and is
    left as it is by a second application. *)
Theorem listLimitCount_bounded c L :
  is_int32 c -> 0 < L <= maxInt32 ->
  listLimitCount c L <> 0
  /\ Z.abs (listLimitCount c L) <= L
  /\ (c <> 0 -> Z.sgn (listLimitCount c L) = Z.sgn c
                /\ Z.abs (listLimitCount c L) <= Z.abs c)
  /\ listLimitCount (listLimitCount c L) L = listLimitCount c L.
Proof.
  intros Hc HL.
  destruct (Z.eq_dec c 0) as [->|Hnz].
  - rewrite (listLimitCount_zero L HL).
    assert (Hself : listLimitCount L L = L).
    { rewrite listLimitCount_outside by (unfold is_int32, maxInt32 in *; lia).
      lia. }
    rewrite Hself. repeat split; try lia.
  - destruct (Z_lt_le_dec (Z.abs c) L) as [Hin|Hout].
    + rewrite (listLimitCount_inside c L Hc HL Hnz Hin).
      rewrite (listLimitCount_inside c L Hc HL Hnz Hin).
      repeat split; try lia.
    + rewrite (listLimitCount_outside c L Hc HL Hout).
      assert (Hr : is_int32 (Z.sgn c * L))
        by (unfold is_int32, maxInt32 in *; lia).
      assert (Habs : L <= Z.abs (Z.sgn c * L)) by lia.
      rewrite (listLimitCount_outside _ L Hr HL Habs).
      repeat split; lia.
Qed.

Lemma listLimitCount_bounded_witness :
  is_int32 (-2147483648) /\ 0 < 100 <= maxInt32
  /\ listLimitCount (-2147483648) 100 <> 0
  /\ Z.abs (listLimitCount (-2147483648) 100) <= 100.
Proof.
  assert (Hc : is_int32 (-2147483648)) by (unfold is_int32; lia).
  assert (HL : 0 < 100 <= maxInt32) by (unfold maxInt32; lia).
  destruct (listLimitCount_bounded (-2147483648) 100 Hc HL) as (H1 & H2 & _).
  repeat split; try lia; assumption.
Defined.
End ListLimitCountBounds.

(** ** uuid: what is read *)

Section UuidReads.
Import Uuid.

(** X4: [uuid] returns the empty string and an error whenever the random
    source delivers fewer than 16 bytes: the error of the source, or the
    end of input (unexpected when some bytes came); with 16 bytes or
    more it returns no error and formats the first 16 alone. *)
Theorem uuid_needs_16_bytes r :
  ((length (avail r) < 16)%nat ->
   uuid r
   = (EmptyString,
      Some (match fault r with
            | Some e => e
            | None => match avail r with [] => EOF | _ => ErrUnexpectedEOF end
            end)))
  /\ ((16 <= length (avail r))%nat ->
      uuid r = (format (stamp (firstn 16 (avail r))), None)).
Proof.
  destruct r as [bs f]. cbn [avail fault]. split; intros H.
  - unfold uuid, ReadFull. cbn [avail fault].
    destruct (Nat.leb_spec 16 (length bs)) as [Hle|Hlt]; [lia|].
    rewrite length_app, repeat_length.
    destruct (Nat.eqb_spec (length bs) (length bs + (16 - length bs))) as [E|_];
      [lia | reflexivity].
  - unfold uuid, ReadFull. cbn [avail fault].
    destruct (Nat.leb_spec 16 (length bs)) as [Hle|Hlt]; [|lia].
    rewrite length_firstn, Nat.min_l by exact Hle. reflexivity.
Qed.

Lemma uuid_needs_16_bytes_witness :
  (length [x01; x02; x03] < 16)%nat
  /\ uuid (mkReader [x01; x02; x03] (Some "entropy pool closed"%string))
     = (EmptyString, Some "entropy pool closed"%string)
  /\ (16 <= length (repeat xff 20))%nat
  /\ uuid (mkReader (repeat xff 20) None)
     = ("ffffffff-ffff-4fff-bfff-ffffffffffff"%string, None).
Proof.
  split; [cbn; lia|]. split.
  - apply (proj1 (uuid_needs_16_bytes
                    (mkReader [x01; x02; x03] (Some "entropy pool closed"%string)))).
    cbn; lia.
  - split; [cbn; lia|].
    rewrite (proj2 (uuid_needs_16_bytes (mkReader (repeat xff 20) None)));
      [reflexivity | cbn; lia].
Defined.
End UuidReads.

(** ** The range of the flow update *)

Section FlowRange.
Import Repository.
Local Open Scope Z_scope.

(** X5: the start of the range that [TrxFlowUpdate] rolls up is a UTC
    midnight, at least 48 hours and less than 72 hours before the
    current time. *)
Theorem flow_from_window now :
  flow_from now mod Time.Day = 0
  /\ now - 72 * Time.Hour < flow_from now <= now - 48 * Time.Hour.
Proof.
  rewrite flow_from_midnight. unfold Time.midnight, Time.Day, Time.Hour,
    Time.Minute, Time.Second. Z.div_mod_to_equations. lia.
Qed.
End FlowRange.

(** ** The recent transaction speed *)

Section RecentSpeed.
Import Db DbQueries.
Local Open Scope Z_scope.

(** X6: [TrxRecentTrxSpeed] serves a request for fewer than 60 seconds as
    one for 60: without a database error the result is the number of
    transactions of the last [max sec 60] seconds divided by
    [max sec 60], which is never negative, and a database error is
    returned with 0. *)
Theorem TrxRecentTrxSpeed_clamps count_err now st sec :
  TrxRecentTrxSpeed count_err now st sec
  = TrxRecentTrxSpeed count_err now st (Z.max sec 60)
  /\ (forall err, TrxRecentTrxSpeed (Some err) now st sec = (0%Q, Some err))
  /\ snd (TrxRecentTrxSpeed None now st sec) = None
  /\ (fst (TrxRecentTrxSpeed None now st sec)
      == inject_Z (recent_count (now - Z.max sec 60 * Time.Second)
                                (transactions st))
         / inject_Z (Z.max sec 60))%Q
  /\ (0 <= fst (TrxRecentTrxSpeed None now st sec))%Q.
Proof.
  assert (Hsec : (if sec <? 60 then 60 else sec) = Z.max sec 60)
    by (destruct (Z.ltb_spec sec 60); lia).
  assert (Hmax : (if Z.max sec 60 <? 60 then 60 else Z.max sec 60) = Z.max sec 60)
    by (destruct (Z.ltb_spec (Z.max sec 60) 60); lia).
  unfold TrxRecentTrxSpeed. rewrite Hsec, Hmax.
  split; [reflexivity|]. split; [reflexivity|].
  unfold Time.Add. replace (now + - Z.max sec 60 * Time.Second)
    with (now - Z.max sec 60 * Time.Second) by lia.
  set (total := recent_count _ _).
  assert (Htot : 0 <= total) by (unfold total, recent_count; lia).
  assert (Hpos : 0 < Z.max sec 60) by lia.
  destruct (Z.eqb_spec total 0) as [E|E]; cbn [fst snd].
  - split; [reflexivity|]. rewrite E. split; [|apply Qle_refl].
    unfold Qeq, Qdiv, Qmult, inject_Z. cbn. lia.
  - split; [reflexivity|]. split; [reflexivity|].
    unfold Qle, Qdiv, Qmult, Qinv, inject_Z. cbn.
    destruct (Z.max sec 60) eqn:Em; try lia. cbn. lia.
Qed.
End RecentSpeed.

(** ** The gas speed and the transactions in range *)

Section GasSpeedRange.
Import Db DbQueries.
Local Open Scope Z_scope.

(** X7: for [from] before [to], [TrxGasSpeed] fails with "gas speed
    aggregation failure" when no transaction has its stamp in the range,
    and otherwise returns, without error, the gas used by the
    transactions in the range divided by the seconds of the range; an
    error of the aggregation is returned with 0. *)
Theorem TrxGasSpeed_range_contents st from to :
  from < to ->
  (Forall (fun d => in_gas_range from to d = false) (transactions st) ->
   TrxGasSpeed None None st from to
   = (0%Q, Some "gas speed aggregation failure"%string))
  /\ (Exists (fun d => in_gas_range from to d = true) (transactions st) ->
      TrxGasSpeed None None st from to
      = ((inject_Z (sumZ gas_use
                      (List.filter (in_gas_range from to) (transactions st)))
          / Time.Seconds (Time.Sub to from))%Q, None))
  /\ (forall err decode_err,
         TrxGasSpeed (Some err) decode_err st from to = (0%Q, Some err)).
Proof.
  intros H. unfold TrxGasSpeed, Time.Before.
  destruct (Z.ltb_spec from to); [|lia]. cbn [negb].
  unfold gas_rows, in_gas_range. split; [|split; [|reflexivity]].
  - intros Hall.
    assert (E : List.filter (trxDailyFlowListFilter (Some from) (Some to))
                  (transactions st) = []).
    { induction (transactions st) as [|d l IH]; [reflexivity|].
      inversion Hall as [|? ? Hd Hl]; subst. cbn. rewrite Hd. now apply IH. }
    now rewrite E.
  - intros Hex.
    destruct (List.filter (trxDailyFlowListFilter (Some from) (Some to))
                (transactions st)) as [|d l] eqn:E; [|reflexivity].
    exfalso. apply Exists_exists in Hex as (d & Hin & Hd).
    assert (Hf : In d (List.filter (trxDailyFlowListFilter (Some from) (Some to))
                         (transactions st))).
    { apply filter_In. split; [now apply list_elem_of_In | exact Hd]. }
    rewrite E in Hf. destruct Hf.
Qed.

Lemma TrxGasSpeed_range_contents_witness :
  0 < 3000000000
  /\ TrxGasSpeed None None
       (mkStore [mkTrxDoc 1000 1 21000; mkTrxDoc 2000 1 9000;
                 mkTrxDoc 9000 1 5] ∅) 0 3000000000
     = ((inject_Z 30000 / Time.Seconds (Time.Sub 3000000000 0))%Q, None)
  /\ TrxGasSpeed None None (mkStore [mkTrxDoc 9000 1 5] ∅) 0 3000000000
     = (0%Q, Some "gas speed aggregation failure"%string).
Proof.
  assert (Hlt : 0 < 3000000000) by lia.
  split; [exact Hlt|]. split.
  - destruct (TrxGasSpeed_range_contents
                (mkStore [mkTrxDoc 1000 1 21000; mkTrxDoc 2000 1 9000;
                          mkTrxDoc 9000 1 5] ∅) 0 3000000000 Hlt)
      as (_ & Hsome & _).
    apply Hsome. apply Exists_cons_hd. reflexivity.
  - destruct (TrxGasSpeed_range_contents
                (mkStore [mkTrxDoc 9000 1 5] ∅) 0 3000000000 Hlt)
      as (Hnone & _).
    apply Hnone. repeat constructor.
Defined.
End GasSpeedRange.

(** ** Listing the daily flow *)

Section DailyFlowList.
Import Db DbQueries.
Local Open Scope Z_scope.

Lemma by_key_trans : Transitive by_key.
Proof. unfold by_key. intros a b c. lia. Qed.

Lemma by_key_total : Total by_key.
Proof. unfold by_key. intros a b. lia. Qed.

Lemma loadTrxDailyFlowList_all decode rows : forall acc,
  Forall (fun d => decode d = None) rows ->
  loadTrxDailyFlowList decode rows acc = (Some (acc ++ rows), None).
Proof.
  induction rows as [|d rows IH]; intros acc H; cbn.
  - now rewrite app_nil_r.
  - inversion H as [|? ? Hd Hr]; subst. rewrite Hd, (IH _ Hr).
    now rewrite <- app_assoc.
Qed.

Lemma loadTrxDailyFlowList_error decode rows : forall acc,
  Exists (fun d => decode d <> None) rows ->
  exists err, loadTrxDailyFlowList decode rows acc = (None, Some err).
Proof.
  induction rows as [|d rows IH]; intros acc H; [inversion H|]. cbn.
  destruct (decode d) as [err|] eqn:Hd; [eauto|].
  inversion H as [? ? Hbad|? ? Hrest]; subst; [congruence | now apply IH].
Qed.

Lemma find_volumes_elem from to col k d :
  (k, d) ∈ find_volumes from to col ->
  col !! k = Some d /\ volume_filter from to d = true.
Proof.
  unfold find_volumes. intros H.
  apply (subseteq_take 365) in H. rewrite merge_sort_Permutation in H.
  apply list_elem_of_In, filter_In in H as [Hin Hf].
  split; [now apply elem_of_map_to_list, list_elem_of_In | exact Hf].
Qed.

Lemma find_volumes_complete from to col k d :
  (length (List.filter (fun kd => volume_filter from to (snd kd))
             (map_to_list col)) <= 365)%nat ->
  col !! k = Some d -> volume_filter from to d = true ->
  (k, d) ∈ find_volumes from to col.
Proof.
  intros Hlen Hk Hf. unfold find_volumes.
  rewrite take_ge
    by (rewrite (Permutation_length (merge_sort_Permutation _ _)); exact Hlen).
  rewrite merge_sort_Permutation.
  apply list_elem_of_In, filter_In. split; [|exact Hf].
  now apply list_elem_of_In, elem_of_map_to_list.
Qed.

(** X8: without an error of the driver, [TrxDailyFlowList] returns at
    most 365 documents of the collection, each with its stamp within the
    bounds that are given, in ascending order of their keys and none
    twice, and all of those in range when they are at most 365; an error
    of [Find] or of decoding a row is returned with no list. *)
Theorem TrxDailyFlowList_lists decode from to st :
  let found := find_volumes (Some from) (Some to) (trx_volume st) in
  (Forall (fun d => decode d = None) (snd <$> found) ->
   TrxDailyFlowList None decode from to st = (Some (snd <$> found), None))
  /\ (Exists (fun d => decode d <> None) (snd <$> found) ->
      exists err, TrxDailyFlowList None decode from to st = (None, Some err))
  /\ (forall err, TrxDailyFlowList (Some err) decode from to st = (None, Some err))
  /\ (length found <= 365)%nat
  /\ StronglySorted by_key found
  /\ NoDup (fst <$> found)
  /\ (forall k d, (k, d) ∈ found ->
                  trx_volume st !! k = Some d
                  /\ volume_filter (Some from) (Some to) d = true)
  /\ ((length (List.filter
                 (fun kd => volume_filter (Some from) (Some to) (snd kd))
                 (map_to_list (trx_volume st))) <= 365)%nat ->
      forall k d, trx_volume st !! k = Some d ->
                  volume_filter (Some from) (Some to) d = true ->
                  (k, d) ∈ found).
Proof.
  intros found. unfold TrxDailyFlowList. fold found.
  split; [intros H; now rewrite loadTrxDailyFlowList_all|].
  split; [intros H; now apply loadTrxDailyFlowList_error|].
  split; [reflexivity|].
  split; [subst found; unfold find_volumes; rewrite length_take; lia|].
  assert (Hsorted : StronglySorted by_key found).
  { subst found. unfold find_volumes.
    set (l := merge_sort by_key _).
    assert (Hl : StronglySorted by_key l)
      by (apply StronglySorted_merge_sort; [apply by_key_trans | apply by_key_total]).
    rewrite <- (take_drop 365 l) in Hl.
    now apply StronglySorted_app_1_l in Hl. }
  split; [exact Hsorted|].
  split.
  { subst found. unfold find_volumes.
    set (l := merge_sort by_key _).
    assert (Hl : NoDup (fst <$> l)).
    { subst l. rewrite merge_sort_Permutation.
      pose proof (NoDup_fst_map_to_list (trx_volume st)) as Hnd.
      induction (map_to_list (trx_volume st)) as [|kd m IH]; [constructor|].
      cbn in *. inversion Hnd as [|? ? Hnotin Hnd']; subst.
      destruct (volume_filter (Some from) (Some to) (snd kd)); [|now apply IH].
      cbn. constructor; [|now apply IH].
      intros Hin. apply Hnotin.
      apply list_elem_of_fmap in Hin as (kd' & -> & Hin).
      apply list_elem_of_In, filter_In in Hin as [Hin _].
      apply list_elem_of_fmap. exists kd'. split; [reflexivity|].
      now apply list_elem_of_In. }
    rewrite <- (take_drop 365 l), fmap_app in Hl.
    now apply NoDup_app in Hl as [Hl _]. }
  split; [intros k d; apply find_volumes_elem|].
  intros Hlen k d. now apply find_volumes_complete.
Qed.
End DailyFlowList.

(** ** What the roll-up keeps and what a listing finds *)

Section RollupContents.
Import Db DbQueries.
Local Open Scope Z_scope.

Lemma total_swap (acc : Group -> Z) (j1 j2 : Z) (z1 z2 : Group) (y : Z) :
  acc z1 + (acc z2 + y) = acc z2 + (acc z1 + y).
Proof. lia. Qed.

Lemma total_insert_fresh acc k g (m : gmap Z Group) :
  m !! k = None -> total acc (<[k := g]> m) = acc g + total acc m.
Proof.
  intros H. unfold total. rewrite map_fold_insert_L; [reflexivity | | exact H].
  intros. apply total_swap; assumption.
Qed.

Lemma total_delete acc k g (m : gmap Z Group) :
  m !! k = Some g -> total acc m = acc g + total acc (delete k m).
Proof.
  intros H. unfold total.
  rewrite (map_fold_delete_L _ _ k g m); [reflexivity | | exact H].
  intros. apply total_swap; assumption.
Qed.

(** One more document adds its share to the total, whether its day has
    a group already or not. *)
Lemma total_accumulate acc (delta : TrxDoc -> Z) d (m : gmap Z Group) :
  (forall d, acc (mkGroup (amo d) (gas_use d) 1) = delta d) ->
  (forall g d, acc (mkGroup (g_volume g + amo d) (g_gas g + gas_use d)
                            (g_value g + 1)) = acc g + delta d) ->
  total acc (partial_alter (accumulate d) (day_of (stamp d)) m)
  = total acc m + delta d.
Proof.
  intros Hnew Hadd. set (k := day_of (stamp d)).
  destruct (m !! k) as [g|] eqn:Hk.
  - assert (E : partial_alter (accumulate d) k m
                = <[k := mkGroup (g_volume g + amo d) (g_gas g + gas_use d)
                                 (g_value g + 1)]> (delete k m)).
    { apply map_eq. intros j. rewrite lookup_partial_alter, lookup_insert.
      destruct (decide (k = j)) as [<-|Hne]; [now rewrite Hk|].
      now rewrite lookup_delete_ne. }
    rewrite E, total_insert_fresh by apply lookup_delete_eq.
    rewrite (total_delete acc k g m Hk), Hadd. lia.
  - assert (E : partial_alter (accumulate d) k m
                = <[k := mkGroup (amo d) (gas_use d) 1]> m).
    { apply map_eq. intros j. rewrite lookup_partial_alter, lookup_insert.
      destruct (decide (k = j)) as [<-|Hne]; [now rewrite Hk | reflexivity]. }
    rewrite E, total_insert_fresh by exact Hk. rewrite Hnew. lia.
Qed.

Lemma total_stage_group acc delta docs : forall m,
  (forall d, acc (mkGroup (amo d) (gas_use d) 1) = delta d) ->
  (forall g d, acc (mkGroup (g_volume g + amo d) (g_gas g + gas_use d)
                            (g_value g + 1)) = acc g + delta d) ->
  total acc (stage_group docs m) = total acc m + sumZ delta docs.
Proof.
  induction docs as [|d docs IH]; intros m Hnew Hadd; cbn [stage_group].
  - cbn. lia.
  - rewrite (IH _ Hnew Hadd), (total_accumulate acc delta d m Hnew Hadd).
    rewrite sumZ_cons. lia.
Qed.

Lemma sumV_project (f : VolumeDoc -> Z) (acc : Group -> Z) (m : gmap Z Group) :
  (forall kg, f (stage_project kg) = acc (snd kg)) ->
  sumV f (stage_project <$> map_to_list m) = total acc m.
Proof.
  intros H. unfold total. rewrite map_fold_foldr.
  induction (map_to_list m) as [|kg l IH]; [reflexivity|].
  cbn. destruct kg as [k g]. cbn. rewrite <- IH.
  specialize (H (k, g)). cbn in H. unfold sumV at 1. cbn. rewrite H.
  reflexivity.
Qed.

Lemma sumZ_one docs : sumZ (fun _ => 1) docs = Z.of_nat (length docs).
Proof. induction docs as [|d docs IH]; [reflexivity|]. rewrite sumZ_cons. cbn [length]. lia. Qed.

(** X10: the documents that a roll-up writes account for every
    transaction in range once: their counts add up to the number of
    transactions at or after [from], their volumes to the sum of the
    amounts and their gas to the sum of the gas used. *)
Theorem rollup_accounts_for_all from docs :
  sumV vd_value (rollup from docs) = Z.of_nat (length (stage_match from docs))
  /\ sumV vd_volume (rollup from docs) = sumZ amo (stage_match from docs)
  /\ sumV vd_gas (rollup from docs) = sumZ gas_use (stage_match from docs).
Proof.
  unfold rollup.
  rewrite (sumV_project vd_value g_value) by reflexivity.
  rewrite (sumV_project vd_volume g_volume) by reflexivity.
  rewrite (sumV_project vd_gas g_gas) by reflexivity.
  rewrite (total_stage_group g_value (fun _ => 1)) by (intros; cbn; lia).
  rewrite (total_stage_group g_volume amo) by (intros; cbn; lia).
  rewrite (total_stage_group g_gas gas_use) by (intros; cbn; lia).
  unfold total. rewrite map_fold_empty, sumZ_one. repeat split; lia.
Qed.

(** X9: after a roll-up, a listing whose bounds include the midnight of
    a day with transactions in range returns the row of that day with
    the aggregate of those transactions, as long as the collection has at
    most 365 rows. *)
Theorem rollup_then_list c from st day lo hi :
  day_docs from day (transactions st) <> [] ->
  bson_date lo <= toDate day <= bson_date hi ->
  (size (trx_volume (after (TrxDailyFlowUpdate None c from st))) <= 365)%nat ->
  exists rows,
    TrxDailyFlowList None (fun _ => None) lo hi
      (after (TrxDailyFlowUpdate None c from st)) = (Some rows, None)
    /\ mkVolumeDoc day (toDate day)
         (sumZ amo (day_docs from day (transactions st)))
         (sumZ gas_use (day_docs from day (transactions st)))
         (Z.of_nat (length (day_docs from day (transactions st)))) ∈ rows.
Proof.
  intros Hdocs Hbounds Hsize.
  set (st' := after (TrxDailyFlowUpdate None c from st)) in *.
  set (row := mkVolumeDoc day _ _ _ _).
  assert (Hrow : trx_volume st' !! day = Some row).
  { subst st'. rewrite close_error_irrelevant, rollup_row.
    subst row. destruct (day_docs from day (transactions st)); [congruence|].
    reflexivity. }
  assert (Hin : volume_filter (Some lo) (Some hi) row = true).
  { unfold volume_filter. subst row. cbn [vd_stamp].
    apply andb_true_iff. split; apply Z.leb_le; lia. }
  exists (snd <$> find_volumes (Some lo) (Some hi) (trx_volume st')).
  split.
  - unfold TrxDailyFlowList. apply loadTrxDailyFlowList_all.
    apply Forall_forall. reflexivity.
  - apply list_elem_of_fmap. exists (day, row). split; [reflexivity|].
    apply find_volumes_complete; [|exact Hrow | exact Hin].
    etransitivity; [apply List.filter_length_le|].
    now rewrite length_map_to_list.
Qed.
End RollupContents.

(** ** The flow update on whole days *)

Section WholeDays.
Import Db Repository.
Local Open Scope Z_scope.

Lemma bson_date_flow_from now :
  bson_date (flow_from now) = toDate (day_of (bson_date now) - 2).
Proof.
  rewrite flow_from_midnight.
  unfold bson_date, toDate, day_of, msPerDay, Time.midnight, Time.Day,
    Time.Hour, Time.Minute, Time.Second.
  Z.div_mod_to_equations. lia.
Qed.

Lemma day_docs_aligned from d0 day docs :
  bson_date from = toDate d0 ->
  day_docs from day docs
  = if decide (d0 <= day)
    then filter (fun d => day_of (stamp d) = day) docs
    else [].
Proof.
  intros Hfrom. unfold day_docs, stage_match. rewrite Hfrom.
  induction docs as [|d docs IH]; [now destruct (decide (d0 <= day))|].
  rewrite !filter_cons.
  assert (Hday : day_of (stamp d) = day ->
                 (toDate d0 <= stamp d <-> d0 <= day)).
  { unfold day_of, toDate, msPerDay. intros <-.
    Z.div_mod_to_equations. lia. }
  destruct (decide (toDate d0 <= stamp d)) as [Hge|Hlt].
  - rewrite filter_cons, IH.
    destruct (decide (day_of (stamp d) = day)) as [E|NE].
    + destruct (decide (d0 <= day)) as [Hd|Hd]; [reflexivity|].
      exfalso. apply Hd, (Hday E), Hge.
    + reflexivity.
  - rewrite IH.
    destruct (decide (day_of (stamp d) = day)) as [E|NE]; [|reflexivity].
    destruct (decide (d0 <= day)) as [Hd|Hd]; [|reflexivity].
    exfalso. apply Hlt, (Hday E), Hd.
Qed.

(** X11: a flow update of the repository without driver error rewrites
    whole days only: with [today] the UTC day of the current time, the
    row of a day from [today - 2] on that has transactions becomes the
    aggregate of all the transactions of that day, and every other row
    is left as it is. *)
Theorem TrxFlowUpdate_whole_days now c w day :
  trx_volume (store (TrxFlowUpdate now None c w)) !! day
  = if decide (day_of (bson_date now) - 2 <= day)
    then match filter (fun d => day_of (stamp d) = day)
                      (transactions (store w)) with
         | [] => trx_volume (store w) !! day
         | l => Some (mkVolumeDoc day (toDate day) (sumZ amo l)
                                  (sumZ gas_use l) (Z.of_nat (length l)))
         end
    else trx_volume (store w) !! day.
Proof.
  destruct (TrxFlowUpdate_frame now None c w) as (Hs & _). rewrite Hs.
  rewrite close_error_irrelevant, rollup_row.
  rewrite (day_docs_aligned _ _ day _ (bson_date_flow_from now)).
  destruct (decide (day_of (bson_date now) - 2 <= day)); reflexivity.
Qed.

(** X12: two flow updates at times of the same UTC day, without driver
    error, leave the rows of the first. *)
Theorem TrxFlowUpdate_same_day now1 now2 c1 c2 w :
  Time.midnight now1 = Time.midnight now2 ->
  store (TrxFlowUpdate now2 None c2 (TrxFlowUpdate now1 None c1 w))
  = store (TrxFlowUpdate now1 None c1 w).
Proof.
  intros Hday.
  destruct (TrxFlowUpdate_frame now2 None c2 (TrxFlowUpdate now1 None c1 w))
    as (Hs2 & _).
  destruct (TrxFlowUpdate_frame now1 None c1 w) as (Hs1 & _).
  rewrite Hs2, Hs1, !flow_from_midnight, <- Hday.
  rewrite (close_error_irrelevant c2), (close_error_irrelevant c1).
  cbn. f_equal. apply stage_merge_twice.
Qed.

Lemma TrxFlowUpdate_same_day_witness :
  Time.midnight 90000000000000 = Time.midnight 100000000000000
  /\ store (TrxFlowUpdate 100000000000000 None None
              (TrxFlowUpdate 90000000000000 None None
                 (initial (mkStore [mkTrxDoc 1000 5 21000] ∅) 0)))
     = store (TrxFlowUpdate 90000000000000 None None
                (initial (mkStore [mkTrxDoc 1000 5 21000] ∅) 0)).
Proof.
  assert (H : Time.midnight 90000000000000 = Time.midnight 100000000000000)
    by reflexivity.
  split; [exact H|].
  apply (TrxFlowUpdate_same_day 90000000000000 100000000000000 None None _ H).
Defined.
End WholeDays.

(** ** What the scheduler changes *)

Section SchedulerFrames.
Import Repository Schedules.
Local Open Scope Z_scope.

Lemma schedule_deferred_keeps w :
  estimate (schedule_deferred w) = estimate w
  /\ store (schedule_deferred w) = store w.
Proof. split; reflexivity. Qed.

Lemma schedule_result first cases w :
  estimate (snd (schedule first cases w))
  = estimate (snd (schedule_loop cases (schedule_start first w)))
  /\ store (snd (schedule first cases w))
     = store (snd (schedule_loop cases (schedule_start first w))).
Proof.
  unfold schedule.
  destruct (schedule_loop cases (schedule_start first w)) as [[|] w'];
    split; reflexivity.
Qed.

Lemma schedule_loop_keeps_estimate cases : forall w,
  no_count_ok cases = true ->
  estimate (snd (schedule_loop cases w)) = estimate w.
Proof.
  induction cases as [|c cases IH]; intros w H; [reflexivity|].
  cbn in H. apply andb_true_iff in H as [Hc H].
  destruct c as [|now a e|[v|err]]; cbn [schedule_loop snd].
  - reflexivity.
  - rewrite (IH _ H).
    now destruct (TrxFlowUpdate_frame now a e
                    (logf Info "calling for trx flow update" w)) as (_ & -> & _).
  - discriminate.
  - rewrite (IH _ H). reflexivity.
Qed.

Lemma schedule_loop_keeps_store cases : forall w,
  no_flow_tick cases = true ->
  store (snd (schedule_loop cases w)) = store w.
Proof.
  induction cases as [|c cases IH]; intros w H; [reflexivity|].
  cbn in H. apply andb_true_iff in H as [Hc H].
  destruct c as [|now a e|count]; cbn [schedule_loop snd].
  - reflexivity.
  - discriminate.
  - rewrite (IH _ H).
    now destruct (updateTrxCountEstimate_frame count
                    (act ActGoUpdateTrxCountEstimate
                       (logf Info "calling for trx count update" w)))
      as (-> & _).
Qed.


End SchedulerFrames.

(** ** The input of the contract synchronisation *)

Section SyncInput.
Import Validator Sync.

Lemma nonempty_inj s t : nonempty s = nonempty t -> s = t.
Proof.
  unfold nonempty. destruct s, t; cbn; intros H; congruence.
Qed.

(** X14: [contractSyncInput] loses nothing of what it carries: two
    contracts have the same input exactly when they agree on address,
    name, source code, optimizer runs and flag, version, support contact
    and license; the name is always present, and each of the last three
    is absent exactly when it is empty. *)
Theorem contractSyncInput_carries c1 c2 :
  (contractSyncInput c1 = contractSyncInput c2 <->
   Address c1 = Address c2 /\ Name c1 = Name c2
   /\ SourceCode c1 = SourceCode c2 /\ OptimizeRuns c1 = OptimizeRuns c2
   /\ IsOptimized c1 = IsOptimized c2 /\ Version c1 = Version c2
   /\ SupportContact c1 = SupportContact c2 /\ License c1 = License c2)
  /\ in_Name (contractSyncInput c1) = Some (Name c1)
  /\ (in_Version (contractSyncInput c1) = None <-> Version c1 = EmptyString)
  /\ (in_SupportContact (contractSyncInput c1) = None
      <-> SupportContact c1 = EmptyString)
  /\ (in_License (contractSyncInput c1) = None <-> License c1 = EmptyString).
Proof.
  split.
  - unfold contractSyncInput. split.
    + intros H. injection H as Ha Hn Hs Ho Hi Hv Hc Hl.
      apply nonempty_inj in Hv, Hc, Hl. repeat split; assumption.
    + intros (-> & -> & -> & -> & -> & -> & -> & ->). reflexivity.
  - assert (Hne : forall s, nonempty s = None <-> s = EmptyString).
    { intros s. unfold nonempty. destruct s; cbn; split; congruence. }
    cbn. split; [reflexivity|]. repeat split; apply Hne.
Qed.
End SyncInput.

(** ** The registries of the broadcast loop *)

Section RegistryFrames.
Local Open Scope Z_scope.
Variables SubBlock SubTrx Block Trx : Type.
Variable addBlockSubscriber :
  SubBlock -> gmap string SubBlock -> gmap string SubBlock.
Variable addTrxSubscriber :
  SubTrx -> gmap string SubTrx -> gmap string SubTrx.
Variable dispatchOnBlock :
  Block -> gmap string SubBlock -> gmap string SubBlock.
Variable dispatchOnTransaction :
  Trx -> gmap string SubTrx -> gmap string SubTrx.

Abbreviation loop :=
  (Broadcast.run_loop SubBlock SubTrx Block Trx addBlockSubscriber
     addTrxSubscriber dispatchOnBlock dispatchOnTransaction).

Lemma loop_trxs cases :
  forall rs rs' : Broadcast.Resolver SubBlock SubTrx Block Trx,
  Broadcast.trxSubscribers rs = Broadcast.trxSubscribers rs' ->
  Broadcast.trxSubscribers (snd (loop cases rs))
  = Broadcast.trxSubscribers
      (snd (loop (List.filter Registries.not_on_blocks cases) rs')).
Proof.
  induction cases as [|c cases IH]; intros rs rs' H; [exact H|].
  destruct c; cbn [List.filter Registries.not_on_blocks Broadcast.run_loop];
    try exact H; apply IH; cbn; now rewrite ?H.
Qed.

Lemma loop_blocks cases :
  forall rs rs' : Broadcast.Resolver SubBlock SubTrx Block Trx,
  Broadcast.blockSubscribers rs = Broadcast.blockSubscribers rs' ->
  Broadcast.blockSubscribers (snd (loop cases rs))
  = Broadcast.blockSubscribers
      (snd (loop (List.filter Registries.not_on_trxs cases) rs')).
Proof.
  induction cases as [|c cases IH]; intros rs rs' H; [exact H|].
  destruct c; cbn [List.filter Registries.not_on_trxs Broadcast.run_loop];
    try exact H; apply IH; cbn; now rewrite ?H.
Qed.

End RegistryFrames.

(** ** The exchanges of the contract synchronisation *)

Section PeerExchanges.
Import Validator Sync SyncCounts.
Local Open Scope Z_scope.

Variable Encode : Payload -> list byte + error.
Variable url_ok : string -> bool.
Variable respond : string -> list byte -> Z + error.
Variable origin : string.

Abbreviation step' := (Sync.step url_ok respond origin).
Abbreviation run' := (Sync.run_routines url_ok respond origin).
Abbreviation sync' := (Sync.syncContract Encode url_ok respond).

(** A step sends at most one request, and only when it finishes the
    goroutine. *)
Lemma step_exchanges i st :
  (length (wire st) <= finished_count st)%nat ->
  (length (wire (step' i st)) <= finished_count (step' i st))%nat.
Proof.
  intros H. pose proof (view_step url_ok respond origin i st) as Hv.
  unfold view, step_view in Hv.
  destruct (routines st !! i) as [[peer [|req|]]|] eqn:Hi.
  - destruct (url_ok peer); injection Hv as _ Hr _ Hw;
      unfold finished_count; rewrite Hr, Hw.
    + pose proof (count_insert is_finished _ i
                    (peer, Prepared (new_request origin peer (length (payload st))))
                    _ Hi) as Hc.
      cbn in Hc. unfold finished_count in H. lia.
    + pose proof (count_insert is_finished _ i (peer, Finished) _ Hi) as Hc.
      cbn in Hc. unfold finished_count in H. lia.
  - injection Hv as _ Hr _ Hw. unfold finished_count. rewrite Hr, Hw.
    pose proof (count_insert is_finished _ i (peer, Finished) _ Hi) as Hc.
    cbn in Hc. unfold finished_count in H. rewrite length_app. cbn. lia.
  - injection Hv as _ Hr _ Hw. unfold finished_count. now rewrite Hr, Hw.
  - injection Hv as _ Hr _ Hw. unfold finished_count. now rewrite Hr, Hw.
Qed.

Lemma run_exchanges sched st :
  (length (wire st) <= finished_count st)%nat ->
  (length (wire (run' sched st)) <= finished_count (run' sched st))%nat.
Proof.
  intros H. induction sched as [|i sched IH] using rev_ind; [exact H|].
  rewrite run_routines_snoc. now apply step_exchanges.
Qed.

Lemma finished_count_le st : (finished_count st <= length (routines st))%nat.
Proof. unfold finished_count. apply List.filter_length_le. Qed.

(** X18: [syncContract] never sends twice to a peer: in any schedule the
    number of requests sent is at most the number of configured peers;
    and when the payload cannot be encoded it returns after logging the
    error, without a goroutine and without a request. *)
Theorem syncContract_sends_at_most_once peers con sched :
  (length (wire (snd (sync' peers origin con sched))) <= length peers)%nat
  /\ (forall err,
        peers <> [] -> Encode (payload_of con) = inr err ->
        sync' peers origin con sched
        = (Returned,
           mkState [] [] 0
             [Errorf ("can not construct the sync payload; " ++ err)] [])).
Proof.
  split.
  - destruct peers as [|p peers]; [cbn; lia|].
    destruct (Encode (payload_of con)) as [buf|err] eqn:Henc.
    + rewrite (syncContract_wire Encode url_ok respond origin (p :: peers)
                 con sched buf ltac:(discriminate) Henc).
      set (st0 := mkState buf _ _ [] []).
      assert (H0 : (length (wire st0) <= finished_count st0)%nat)
        by (cbn; lia).
      pose proof (run_exchanges sched st0 H0) as Hle.
      pose proof (finished_count_le (run' sched st0)) as Hfin.
      assert (Hlen : length (routines (run' sched st0)) = length (p :: peers)).
      { rewrite <- (length_fmap fst), run_routines_peers. subst st0.
        cbn [routines]. now rewrite !length_fmap. }
      lia.
    + unfold Sync.syncContract, constructMutationPayload. rewrite Henc.
      cbn. lia.
  - intros err Hne Henc. unfold Sync.syncContract, constructMutationPayload.
    rewrite Henc. destruct peers; [congruence | reflexivity].
Qed.

(** With one peer, the turns of other goroutines change nothing. *)
Lemma single_peer_view p buf sched :
  url_ok p = true ->
  view (run' sched (mkState buf [(p, Started)] 1 [] []))
  = match count_occ Nat.eq_dec sched 0%nat with
    | O => (buf, [(p, Started)], 1, [])
    | S O => (buf, [(p, Prepared (new_request origin p (length buf)))], 1, [])
    | S (S _) =>
        ([], [(p, Finished)], 0,
         [exchange respond (new_request origin p (length buf)) buf])
    end.
Proof.
  intros Hok. induction sched as [|i sched IH] using rev_ind; [reflexivity|].
  rewrite run_routines_snoc, view_step, IH, count_occ_app. cbn [count_occ].
  destruct (Nat.eq_dec i 0%nat) as [->|Hne].
  - destruct (count_occ Nat.eq_dec sched 0%nat) as [|[|n]]; cbn [Nat.add].
    + unfold step_view. cbn [lookup list_lookup]. rewrite Hok. reflexivity.
    + unfold step_view. cbn [lookup list_lookup insert list_insert].
      cbn [new_request Header_Set req_ContentLength].
      rewrite skipn_all. reflexivity.
    + reflexivity.
  - rewrite Nat.add_0_r.
    assert (Hnone : forall pc : Pc, [(p, pc)] !! i = None)
      by (intros pc; destruct i; [congruence | reflexivity]).
    destruct (count_occ Nat.eq_dec sched 0%nat) as [|[|n]];
      unfold step_view; now rewrite Hnone.
Qed.

(** X17: with one configured peer, once its goroutine has had its two
    turns, [syncContract] has returned and exactly one request has been
    sent, with the encoded payload as its body and the length of the
    payload as its content length. *)
Theorem syncContract_single_peer p con buf sched :
  Encode (payload_of con) = inl buf ->
  url_ok p = true ->
  (2 <= count_occ Nat.eq_dec sched 0%nat)%nat ->
  fst (sync' [p] origin con sched) = Returned
  /\ exists e,
      wire (snd (sync' [p] origin con sched)) = [e]
      /\ ex_body e = buf
      /\ req_ContentLength (ex_request e) = length buf
      /\ well_formed p origin (ex_request e)
      /\ ex_result e = respond p buf.
Proof.
  intros Henc Hok Hturns.
  rewrite (syncContract_spawned Encode url_ok respond origin [p] con sched buf
             ltac:(discriminate) Henc).
  cbv zeta. cbn [fmap list_fmap length Z.of_nat Pos.of_succ_nat].
  pose proof (single_peer_view p buf sched Hok) as Hv.
  destruct (count_occ Nat.eq_dec sched 0%nat) as [|[|n]]; [lia | lia |].
  unfold view in Hv. injection Hv as Hp Hr Hw Hx.
  change (Z.of_nat 1) with 1. rewrite Hw. cbn [Z.eqb fst snd logf wire].
  split; [reflexivity|].
  exists (exchange respond (new_request origin p (length buf)) buf).
  split; [exact Hx|].
  unfold exchange. cbn [ex_body ex_request ex_result new_request Header_Set
                        req_ContentLength req_url].
  rewrite firstn_all, Nat.ltb_irrefl.
  repeat split; reflexivity.
Qed.
Lemma at_most_one {A} (P : A -> bool) (l : list A) :
  (forall a b x y, a <> b -> l !! a = Some x -> l !! b = Some y ->
                   P x = true -> P y = true -> False) ->
  (length (List.filter P l) <= 1)%nat.
Proof.
  induction l as [|x l IH]; intros H; [cbn; lia|].
  assert (Hl : (length (List.filter P l) <= 1)%nat).
  { apply IH. intros a b u v Hab Ha Hb. apply (H (S a) (S b)); [lia | exact Ha | exact Hb]. }
  cbn [List.filter]. destruct (P x) eqn:Hx; [|exact Hl].
  destruct (List.filter P l) as [|y f] eqn:Hf; [cbn; lia|].
  exfalso.
  assert (Hin : In y (List.filter P l)) by (rewrite Hf; now left).
  apply filter_In in Hin as [Hin Hy].
  apply list_elem_of_In, list_elem_of_lookup in Hin as [b Hb].
  apply (H 0%nat (S b) x y); [lia | reflexivity | exact Hb | exact Hx | exact Hy].
Qed.

End PeerExchanges.

(** ** The symbol of a price *)

Section PriceSymbol.
Import Price.

Lemma rep_word_end (s : list ascii) : forall n at_start,
  (n <= 4)%nat ->
  rep word 2 4 (match_here [EndText]) n at_start s
  = (2 <=? n + length s)%nat && (n + length s <=? 4)%nat && forallb word s.
Proof.
  induction s as [|c s IH]; intros n at_start Hn; cbn [rep length forallb].
  - change (match_here [EndText] at_start []) with true.
    rewrite Nat.add_0_r, !andb_true_r.
    destruct (Nat.leb_spec 2 n), (Nat.leb_spec n 4); reflexivity || lia.
  - change (match_here [EndText] at_start (c :: s)) with false.
    rewrite andb_false_r, orb_false_r.
    destruct (Nat.ltb_spec n 4) as [Hlt|Hge].
    + rewrite (IH (S n) false) by lia.
      replace (S n + length s)%nat with (n + S (length s))%nat by lia.
      cbn [andb]. destruct (word c); cbn [andb]; [reflexivity|].
      now rewrite andb_false_r.
    + cbn [andb].
      destruct (Nat.leb_spec (n + S (length s)) 4); [lia|].
      now rewrite andb_false_r.
Qed.

Lemma match_from_later (s : list ascii) :
  match_from reExpectedPriceSymbol false s = false.
Proof. induction s as [|c s IH]; [reflexivity|]. cbn. exact IH. Qed.

Lemma length_list_ascii s :
  length (list_ascii_of_string s) = String.length s.
Proof. induction s as [|c s IH]; cbn; [reflexivity | now rewrite IH]. Qed.

(** The expression accepts the texts of two to four word characters. *)
Lemma Match_price_symbol s :
  Match reExpectedPriceSymbol s
  = (2 <=? String.length s)%nat && (String.length s <=? 4)%nat
    && forallb word (list_ascii_of_string s).
Proof.
  unfold Match. rewrite <- length_list_ascii.
  set (l := list_ascii_of_string s).
  assert (H04 : (0 <= 4)%nat) by lia.
  pose proof (rep_word_end l 0 true H04) as Hrep.
  cbn [Nat.add] in Hrep.
  destruct l as [|c l'] eqn:El.
  - reflexivity.
  - cbn [match_from]. rewrite match_from_later, orb_false_r.
    cbn [match_here reExpectedPriceSymbol andb]. exact Hrep.
Qed.

(** X19: [Price] asks the repository exactly for the symbols of two to
    four characters that are all digits, letters or underscores, and
    returns its answer; for any other text it returns the error
    "invalid denomination received". *)
Theorem Price_accepts_symbols (P : Type) (repo_Price : string -> P + error) to :
  ((2 <= String.length to <= 4)%nat ->
   Forall (fun c => word c = true) (list_ascii_of_string to) ->
   Price repo_Price to = repo_Price to)
  /\ (~ ((2 <= String.length to <= 4)%nat
         /\ Forall (fun c => word c = true) (list_ascii_of_string to)) ->
      Price repo_Price to = inr "invalid denomination received"%string).
Proof.
  unfold Price. rewrite Match_price_symbol. split.
  - intros [Hlo Hhi] Hall.
    apply Nat.leb_le in Hlo. apply Nat.leb_le in Hhi.
    rewrite Hlo, Hhi. cbn [andb].
    assert (E : forallb word (list_ascii_of_string to) = true)
      by (apply forallb_forall; intros c Hc;
          rewrite Forall_forall in Hall; apply Hall, list_elem_of_In, Hc).
    now rewrite E.
  - intros Hnot.
    destruct (Nat.leb_spec 2 (String.length to)) as [Hlo|Hlo]; [|reflexivity].
    destruct (Nat.leb_spec (String.length to) 4) as [Hhi|Hhi]; [|reflexivity].
    destruct (forallb word (list_ascii_of_string to)) eqn:E; [|reflexivity].
    exfalso. apply Hnot. split; [lia|].
    apply Forall_forall. intros c Hc.
    rewrite forallb_forall in E. apply E, list_elem_of_In, Hc.
Qed.

Lemma Price_accepts_symbols_witness :
  Price (fun _ => inl 7) "USD" = inl 7
  /\ Price (fun _ => inl 7) "U" = inr "invalid denomination received"%string
  /\ Price (fun _ => inl 7) "EUR!" = inr "invalid denomination received"%string
  /\ Price (fun _ => inl 7) "DOLLAR" = inr "invalid denomination received"%string.
Proof.
  split.
  - apply (proj1 (Price_accepts_symbols nat (fun _ => inl 7) "USD")).
    + cbn; lia.
    + repeat constructor.
  - split; [|split].
    + apply (proj2 (Price_accepts_symbols nat (fun _ => inl 7) "U")).
      intros [[H _] _]. cbn in H. lia.
    + apply (proj2 (Price_accepts_symbols nat (fun _ => inl 7) "EUR!")).
      intros [_ H]. rewrite Forall_forall in H.
      assert (Hin : "!"%char ∈ list_ascii_of_string "EUR!")
        by (cbn; repeat constructor).
      specialize (H _ Hin). discriminate.
    + apply (proj2 (Price_accepts_symbols nat (fun _ => inl 7) "DOLLAR")).
      intros [[_ H] _]. cbn in H. lia.
Defined.
End PriceSymbol.

(** ** Accounts *)

Section AccountRows.
Import Accounts.
Local Open Scope Z_scope.

Variable AddressString : list byte -> string.
Variable HashString : list byte -> string.
Variable HexToHash : string -> list byte.
Variable HexToAddress : string -> list byte.
Variable AccountTypeERC20Token : string.

Abbreviation Account' := (Account AddressString HexToHash).
Abbreviation AddAccount' := (AddAccount AddressString HashString).
Abbreviation IsAccountKnown' := (IsAccountKnown AddressString).
Abbreviation mark_all' := (mark_all AddressString).

(** X20: an account added under an address that the collection does not
    have is found again as it was added, given that the text of its
    contract transaction hash reads back as the hash; it is known from
    then on, the accounts of other addresses are as before, and adding
    it once more fails with the duplicate key error and changes
    nothing.  Adding no account at all fails and changes nothing. *)
Theorem AddAccount_then_Account col acc :
  col !! AddressString (types.Address acc) = None ->
  (forall h, types.ContractTx acc = Some h -> HexToHash (HashString h) = h) ->
  let col' := fst (AddAccount' None col (Some acc)) in
  snd (AddAccount' None col (Some acc)) = None
  /\ Account' None None col' (types.Address acc) = (Some acc, None)
  /\ IsAccountKnown' None col' (types.Address acc) = (true, None)
  /\ (forall addr,
        AddressString addr <> AddressString (types.Address acc) ->
        Account' None None col' addr = Account' None None col addr)
  /\ AddAccount' None col' (Some acc) = (col', Some ErrDuplicateKey)
  /\ (forall e, AddAccount' e col None
                = (col, Some "can not add empty account"%string)).
Proof.
  intros Hfree Hhash. cbv zeta. unfold AddAccount, Account, IsAccountKnown.
  rewrite Hfree. cbn [fst snd]. rewrite lookup_insert_eq.
  split; [reflexivity|]. split.
  { cbn. destruct acc as [a [h|] t la tc]; cbn in *;
      [now rewrite (Hhash h eq_refl) | reflexivity]. }
  split; [reflexivity|]. split.
  { intros addr Hne. now rewrite lookup_insert_ne. }
  split; reflexivity.
Qed.

Lemma mark_all_other col addr tss k :
  k <> AddressString addr -> mark_all' col addr tss !! k = col !! k.
Proof.
  intros Hne. unfold mark_all. revert col.
  induction tss as [|ts tss IH]; intros col; [reflexivity|].
  cbn. rewrite IH. now apply lookup_alter_ne.
Qed.

Lemma last_default {A} (l : list A) : forall a d d',
  List.last (a :: l) d = List.last (a :: l) d'.
Proof.
  induction l as [|b l IH]; intros a d d'; [reflexivity|].
  change (List.last (b :: l) d = List.last (b :: l) d'). apply IH.
Qed.

Lemma mark_all_known tss : forall col addr row,
  col !! AddressString addr = Some row ->
  mark_all' col addr tss !! AddressString addr
  = Some (mkAccountRow (row_Type row) (row_Sc row)
                       (List.last tss (row_Activity row))
                       (row_Counter row + Z.of_nat (length tss))).
Proof.
  unfold mark_all.
  induction tss as [|ts tss IH]; intros col addr row H.
  - cbn. rewrite H. destruct row; cbn. do 2 f_equal. lia.
  - cbn [foldl AccountMarkActivity fst].
    rewrite (IH _ addr (mark ts row))
      by (rewrite lookup_alter_eq, H; reflexivity).
    cbn [mark row_Type row_Sc row_Activity row_Counter length].
    f_equal. f_equal; [|lia].
    destruct tss as [|z tss]; [reflexivity|].
    change (List.last (ts :: z :: tss) (row_Activity row))
      with (List.last (z :: tss) (row_Activity row)).
    apply last_default.
Qed.

(** X21: marking the activity of a known account at a list of times
    leaves it with the last of the times as its last activity and its
    transaction counter raised by the number of the times, with type and
    contract transaction as before; the accounts of other addresses are
    untouched, and marking an unknown account changes nothing and
    returns no error. *)
Theorem AccountMarkActivity_counts col addr tss :
  (forall row,
      col !! AddressString addr = Some row ->
      mark_all' col addr tss !! AddressString addr
      = Some (mkAccountRow (row_Type row) (row_Sc row)
                           (List.last tss (row_Activity row))
                           (row_Counter row + Z.of_nat (length tss))))
  /\ (forall k, k <> AddressString addr ->
                mark_all' col addr tss !! k = col !! k)
  /\ (col !! AddressString addr = None ->
      mark_all' col addr tss = col
      /\ forall ts, AccountMarkActivity AddressString None col addr ts
                    = (col, None)).
Proof.
  split; [intros row H; now apply mark_all_known|].
  split; [intros k Hne; now apply mark_all_other|].
  intros Hnone.
  assert (Hstep : forall ts, alter (mark ts) (AddressString addr) col = col).
  { intros ts. apply map_eq. intros k.
    destruct (decide (k = AddressString addr)) as [->|Hne].
    - now rewrite lookup_alter_eq, Hnone.
    - now rewrite lookup_alter_ne. }
  split.
  - unfold mark_all. induction tss as [|ts tss IH]; [reflexivity|].
    cbn. now rewrite Hstep.
  - intros ts. unfold AccountMarkActivity. now rewrite Hstep.
Qed.

Lemma NoDup_fst_filter {K V} (p : K * V -> bool) (m : list (K * V)) :
  NoDup (fst <$> m) -> NoDup (fst <$> List.filter p m).
Proof.
  induction m as [|kr m IH]; intros Hnd; [constructor|].
  cbn in *. inversion Hnd as [|? ? Hnotin Hnd']; subst.
  destruct (p kr); [|now apply IH].
  cbn. constructor; [|now apply IH].
  intros Hin. apply Hnotin.
  apply list_elem_of_fmap in Hin as (kr' & -> & Hin).
  apply list_elem_of_In, filter_In in Hin as [Hin _].
  apply list_elem_of_fmap. exists kr'. split; [reflexivity|].
  now apply list_elem_of_In.
Qed.

Lemma by_activity_trans : Transitive by_activity.
Proof. unfold by_activity. intros a b c. lia. Qed.

Lemma by_activity_total : Total by_activity.
Proof. unfold by_activity. intros a b. lia. Qed.

Abbreviation find_erc20' := (find_erc20 AccountTypeERC20Token).

Lemma loadErc20TokensList_all decode rows : forall acc,
  Forall (fun r => decode r = None) rows ->
  loadErc20TokensList HexToAddress decode rows acc
  = (Some (acc ++ ((fun r => HexToAddress (fst r)) <$> rows)), None).
Proof.
  induction rows as [|r rows IH]; intros acc H; cbn.
  - now rewrite app_nil_r.
  - inversion H as [|? ? Hd Hr]; subst. rewrite Hd, (IH _ Hr).
    now rewrite <- app_assoc.
Qed.

(** X22: [Erc20TokensList] takes a count that is not positive as 25;
    without an error it returns the addresses of at most that many
    accounts of the collection, each of the ERC20 token type and none
    twice, the more active first: by transaction counter, then by last
    activity. *)
Theorem Erc20TokensList_most_active decode col count :
  let limit := if count <=? 0 then 25 else count in
  let found := find_erc20' limit col in
  (Forall (fun r => decode r = None) found ->
   Erc20TokensList HexToAddress AccountTypeERC20Token None decode col count
   = (Some ((fun r => HexToAddress (fst r)) <$> found), None))
  /\ (forall err,
        Erc20TokensList HexToAddress AccountTypeERC20Token (Some err) decode
          col count = (None, Some err))
  /\ (length found <= Z.to_nat limit)%nat
  /\ StronglySorted by_activity found
  /\ NoDup (fst <$> found)
  /\ (forall k row, (k, row) ∈ found ->
                    col !! k = Some row
                    /\ row_Type row = AccountTypeERC20Token).
Proof.
  cbv zeta. unfold Erc20TokensList, defaultERC20ListLength.
  set (limit := if count <=? 0 then 25 else count).
  split; [intros H; now rewrite loadErc20TokensList_all|].
  split; [reflexivity|].
  unfold find_erc20. set (l := merge_sort by_activity _).
  split; [rewrite length_take; lia|].
  assert (Hperm : l ≡ₚ List.filter (is_erc20 AccountTypeERC20Token)
                         (map_to_list col))
    by apply merge_sort_Permutation.
  split.
  { assert (Hl : StronglySorted by_activity l)
      by (apply StronglySorted_merge_sort;
          [apply by_activity_trans | apply by_activity_total]).
    rewrite <- (take_drop (Z.to_nat limit) l) in Hl.
    now apply StronglySorted_app_1_l in Hl. }
  split.
  { assert (Hl : NoDup (fst <$> l))
      by (rewrite Hperm; apply NoDup_fst_filter, NoDup_fst_map_to_list).
    rewrite <- (take_drop (Z.to_nat limit) l), fmap_app in Hl.
    now apply NoDup_app in Hl as [Hl _]. }
  intros k row Hin. apply subseteq_take in Hin. rewrite Hperm in Hin.
  apply list_elem_of_In, filter_In in Hin as [Hin Hty].
  split; [now apply elem_of_map_to_list, list_elem_of_In|].
  unfold is_erc20 in Hty. cbn in Hty. now apply String.eqb_eq in Hty.
Qed.
End AccountRows.

(** ** Sample runs *)

Section MoreWitnesses.
Import Samples MoreSamples.
Local Open Scope Z_scope.

Lemma ValidateContract_compile_and_match_errors_witness :
  fst (Validator.run_ValidateContract cv_rejected sample_contract)
  = Some "ParserError: expected pragma"%string
  /\ fst (Validator.run_ValidateContract cv_unmatched sample_contract)
     = Some "deployed contract does not match the source code provided"%string.
Proof.
  split.
  - destruct (ValidateContract_compile_and_match_errors cv_rejected
                sample_contract
                (Validator.mkTransaction [x01] (Some [xab; xcd]) [x60])
                eq_refl eq_refl) as [Hc _].
    apply (Hc "ParserError: expected pragma"%string eq_refl).
  - destruct (ValidateContract_compile_and_match_errors cv_unmatched
                sample_contract
                (Validator.mkTransaction [x01] (Some [xab; xcd]) [x60])
                eq_refl eq_refl) as [_ Hm].
    apply (Hm [Validator.mkArtefact "C" [x61]] eq_refl eq_refl).
Defined.

Lemma rollup_then_list_witness :
  Db.day_docs 86400000000000 1 (Db.transactions sample_store) <> []
  /\ Db.bson_date 0 <= Db.toDate 1 <= Db.bson_date 200000000000000
  /\ exists rows,
      DbQueries.TrxDailyFlowList None (fun _ => None) 0 200000000000000
        (Db.after (Db.TrxDailyFlowUpdate None None 86400000000000 sample_store))
      = (Some rows, None)
      /\ Db.mkVolumeDoc 1 86400000 12 51000 2 ∈ rows.
Proof.
  assert (Hdocs : Db.day_docs 86400000000000 1 (Db.transactions sample_store)
                  <> []) by (vm_compute; discriminate).
  assert (Hb : Db.bson_date 0 <= Db.toDate 1 <= Db.bson_date 200000000000000)
    by (vm_compute; split; discriminate).
  split; [exact Hdocs|]. split; [exact Hb|].
  apply (rollup_then_list None 86400000000000 sample_store 1 0
           200000000000000 Hdocs Hb).
  vm_compute. lia.
Defined.

Lemma syncContract_requests_witness :
  sample_peers <> []
  /\ Forall (Sync.exchange_ok sample_origin sample_peers)
            (Sync.wire (snd (sample_sync [0; 1; 0; 1]%nat))).
Proof.
  assert (Hne : sample_peers <> []) by discriminate.
  split; [exact Hne|].
  apply (syncContract_requests sample_Encode (fun _ => true) sample_respond
           sample_origin sample_peers sample_validated [0; 1; 0; 1]%nat
           sample_body Hne eq_refl).
Defined.


Lemma syncContract_single_peer_witness :
  fst (Sync.syncContract sample_Encode (fun _ => true) sample_respond
         ["https://api-a.example/api"%string] sample_origin sample_validated
         [0; 3; 0]%nat) = Sync.Returned.
Proof.
  apply (syncContract_single_peer sample_Encode (fun _ => true) sample_respond
           sample_origin "https://api-a.example/api" sample_validated
           sample_body [0; 3; 0]%nat eq_refl eq_refl).
  cbn. lia.
Defined.

Lemma AddAccount_then_Account_witness :
  (∅ : gmap string Accounts.AccountRow)
    !! hex_address (Accounts.types.Address sample_account) = None
  /\ Accounts.Account hex_address sample_HexToBytes None None
       (fst (Accounts.AddAccount hex_address hex_address None ∅
               (Some sample_account)))
       [xde; xad]
     = (Some sample_account, None).
Proof.
  assert (Hfree : (∅ : gmap string Accounts.AccountRow)
                    !! hex_address (Accounts.types.Address sample_account)
                  = None) by reflexivity.
  split; [exact Hfree|].
  assert (Hhash : forall h,
             Accounts.types.ContractTx sample_account = Some h ->
             sample_HexToBytes (hex_address h) = h)
    by (intros h H; injection H as <-; reflexivity).
  destruct (AddAccount_then_Account hex_address hex_address sample_HexToBytes
              ∅ sample_account Hfree Hhash) as (_ & H & _).
  exact H.
Defined.
End MoreWitnesses.
